(** * WeatherAssistant: location resolution and forecast extraction

    A shallow embedding of the scraping pipeline of the weather module
    ([fetchLocations], [fetchWeather] and their helpers) together with
    the older stand-alone command line variant ([getWeather]), and the
    properties of the pipeline that its specification states.

    Conventions of the embedding.
    - An ECMAScript string is a sequence of UTF-16 code units
      ([jsstring]); source literals are written with [str].
    - A value of type [number | null] is an [option jsnum]; [None] is
      [null].  [jsnum] has the Numbers [parseInt] returns: [NaN], the
      integers a double holds, negative zero and the infinities.
    - The page is a parsed DOM tree.  A cheerio selection is a list of
      handles into a store that holds the page and the detached
      documents created by [clone].
    - [console.error] appends one line to the log of the store. *)

From Stdlib Require Import List String Ascii ZArith NArith Bool Arith Lia Sorted.
Import ListNotations.
Open Scope string_scope.
Open Scope list_scope.

Set Implicit Arguments.
Set Warnings "-register-all".

(** ** ECMAScript strings *)

Module JsString.

Definition jsstring : Type := list N.

(** A source literal made of ASCII characters. *)
Definition str (s : string) : jsstring :=
  List.map N_of_ascii (list_ascii_of_string s).

(** U+00B0 DEGREE SIGN, the literal ['°'] of the source. *)
Definition degree : jsstring := [176%N].

Fixpoint eqb (a b : jsstring) : bool :=
  match a, b with
  | [], [] => true
  | x :: a', y :: b' => (x =? y)%N && eqb a' b'
  | _, _ => false
  end.

(** WhiteSpace and LineTerminator code points, the set that
    [String.prototype.trim] and [parseInt] strip. *)
Definition is_space (c : N) : bool :=
  ((9 <=? c) && (c <=? 13) || (c =? 32) || (c =? 160) || (c =? 5760)
   || (8192 <=? c) && (c <=? 8202) || (c =? 8232) || (c =? 8233)
   || (c =? 8239) || (c =? 8287) || (c =? 12288) || (c =? 65279))%N.

Fixpoint trimStart (s : jsstring) : jsstring :=
  match s with
  | c :: r => if is_space c then trimStart r else s
  | [] => []
  end.

Definition trimEnd (s : jsstring) : jsstring := rev (trimStart (rev s)).

(** [s.trim()] *)
Definition trim (s : jsstring) : jsstring := trimEnd (trimStart s).

Fixpoint starts_with (p s : jsstring) : bool :=
  match p, s with
  | [], _ => true
  | a :: p', b :: s' => (a =? b)%N && starts_with p' s'
  | _ :: _, [] => false
  end.

(** [s.replace(p, '')] for a string pattern [p]: the first occurrence
    of [p], if any, is removed. *)
Fixpoint remove_first (p s : jsstring) : jsstring :=
  if starts_with p s then skipn (List.length p) s
  else match s with
       | [] => []
       | c :: r => c :: remove_first p r
       end.

Definition all_space (s : jsstring) : bool := forallb is_space s.

End JsString.
Export JsString.

(** ** Numbers and [parseInt] *)

(** The Numbers [parseInt] returns: [NaN], an integer that a double
    holds, [-0], or an infinity. *)
Inductive jsnum : Type :=
| NaN
| Int (z : Z)
| NegZero
| Infinity (negative : bool).

Definition is_digit (c : N) : bool := ((48 <=? c) && (c <=? 57))%N.

Fixpoint digits_prefix (s : jsstring) : jsstring :=
  match s with
  | c :: r => if is_digit c then c :: digits_prefix r else []
  | [] => []
  end.

Definition digits_value (ds : jsstring) : Z :=
  fold_left (fun acc c => 10 * acc + (Z.of_N c - 48))%Z ds 0%Z.

(** The double nearest to a positive integer, as an integer: the
    integer itself when it has at most 53 significant bits, otherwise
    its 53 leading bits rounded to nearest, ties to even. *)
Definition round53 (n : Z) : Z :=
  let excess := (Z.log2 n - 52)%Z in
  if (excess <=? 0)%Z then n
  else
    let q := Z.shiftr n excess in
    let r := Z.land n (Z.ones excess) in
    let half := Z.shiftl 1 (excess - 1) in
    Z.shiftl (if (half <? r)%Z || (r =? half)%Z && Z.odd q then q + 1 else q)%Z excess.

(** The Number value of [sign * mathInt], the last step of
    [parseInt]: zero keeps the sign, and a magnitude that rounds to
    2^1024 or more is an infinity. *)
Definition number_of (negative : bool) (mathInt : Z) : jsnum :=
  if (mathInt =? 0)%Z then (if negative then NegZero else Int 0)
  else
    let r := round53 mathInt in
    if (2 ^ 1024 <=? r)%Z then Infinity negative
    else Int (if negative then - r else r).

(** [parseInt(s, 10)]: leading white space is skipped, one sign is
    read, then the longest prefix of decimal digits; no digit gives
    [NaN].  Whatever follows the digits is ignored.  The integer the
    digits write is returned as a Number. *)
Definition parseInt10 (s : jsstring) : jsnum :=
  let s1 := trimStart s in
  let '(neg, s2) :=
    match s1 with
    | c :: r => if (c =? 45)%N then (true, r)
                else if (c =? 43)%N then (false, r) else (false, s1)
    | [] => (false, s1)
    end in
  match digits_prefix s2 with
  | [] => NaN
  | ds => number_of neg (digits_value ds)
  end.

(** [normalizeTemperature] of the weather module:
    [temp.length > 0 ? parseInt(temp.replace('°', ''), 10) : null]. *)
Definition normalizeTemperature (temp : jsstring) : option jsnum :=
  if (0 <? List.length temp)%nat
  then Some (parseInt10 (remove_first degree temp))
  else None.

(** ** ECMAScript values of a decoded JSON body *)

Module Js.

(** The values [JSON.parse] builds, and [undefined], which property
    reads produce.  Numbers are the integers; [to_string] prints those
    of size up to 2^53, which a double holds and prints digit for
    digit.  The fields of an object are listed in the order of
    [Object.keys]. *)
Inductive jsval : Type :=
| Undefined
| JNull
| JBool (b : bool)
| JNum (z : Z)
| JStr (s : jsstring)
| JArr (items : list jsval)
| JObj (fields : list (jsstring * jsval)).

Inductive error : Type :=
| TypeError
| NetworkError.

(** What a call produces: a value, a thrown error, or [Unmodelled] for
    the input shapes whose coercions the embedding leaves out (see
    [to_string] and [array_length]). *)
Inductive outcome (A : Type) : Type :=
| Ok (a : A)
| Throw (e : error)
| Unmodelled.
Arguments Ok {A} a.
Arguments Throw {A} e.
Arguments Unmodelled {A}.

Definition bind {A B : Type} (m : outcome A) (k : A -> outcome B) : outcome B :=
  match m with
  | Ok a => k a
  | Throw e => Throw e
  | Unmodelled => Unmodelled
  end.

Declare Scope outcome_scope.
Notation "x <- m ;; k" := (bind m (fun x => k))
  (at level 61, m at next level, right associativity) : outcome_scope.

Fixpoint lookup (k : jsstring) (fields : list (jsstring * jsval)) : jsval :=
  match fields with
  | [] => Undefined
  | (k', v) :: r => if JsString.eqb k k' then v else lookup k r
  end.

(** Decimal digits of a natural number, most significant first. *)
Fixpoint decimal_fuel (fuel : nat) (n : N) (acc : jsstring) : jsstring :=
  match fuel with
  | O => acc
  | S f =>
      let acc' := (48 + n mod 10)%N :: acc in
      if (n <? 10)%N then acc' else decimal_fuel f (n / 10)%N acc'
  end.

Definition decimal (n : N) : jsstring :=
  decimal_fuel (S (N.to_nat (N.log2 n))) n [].

(** The array index a property key denotes, if it is the canonical
    decimal form of one. *)
Definition index_of_key (k : jsstring) : option nat :=
  if forallb is_digit k && JsString.eqb (decimal (Z.to_N (digits_value k))) k
  then Some (Z.to_nat (digits_value k)) else None.

Definition nth_or_undefined (i : nat) (xs : list jsval) : jsval :=
  nth i xs Undefined.

Definition char_at (i : nat) (s : jsstring) : jsval :=
  match nth_error s i with
  | Some c => JStr [c]
  | None => Undefined
  end.

(** [v[k]] and [v.k]: reading a property of [undefined] or [null]
    throws; a property the value does not own reads as [undefined]
    (none of the keys the program reads is inherited). *)
Definition get (v : jsval) (k : jsstring) : outcome jsval :=
  match v with
  | Undefined | JNull => Throw TypeError
  | JObj fields => Ok (lookup k fields)
  | JArr items =>
      if JsString.eqb k (str "length") then Ok (JNum (Z.of_nat (List.length items)))
      else match index_of_key k with
           | Some i => Ok (nth_or_undefined i items)
           | None => Ok Undefined
           end
  | JStr s =>
      if JsString.eqb k (str "length") then Ok (JNum (Z.of_nat (List.length s)))
      else match index_of_key k with
           | Some i => Ok (char_at i s)
           | None => Ok Undefined
           end
  | JBool _ | JNum _ => Ok Undefined
  end.

(** [v[i]] for a loop counter [i]. *)
Definition get_index (v : jsval) (i : nat) : outcome jsval :=
  match v with
  | Undefined | JNull => Throw TypeError
  | JObj fields => Ok (lookup (decimal (N.of_nat i)) fields)
  | JArr items => Ok (nth_or_undefined i items)
  | JStr s => Ok (char_at i s)
  | JBool _ | JNum _ => Ok Undefined
  end.

(** [Object.keys(v)] *)
Definition keys (v : jsval) : outcome (list jsstring) :=
  match v with
  | Undefined | JNull => Throw TypeError
  | JObj fields => Ok (List.map fst fields)
  | JArr items => Ok (List.map (fun i => decimal (N.of_nat i)) (seq 0 (List.length items)))
  | JStr s => Ok (List.map (fun i => decimal (N.of_nat i)) (seq 0 (List.length s)))
  | JBool _ | JNum _ => Ok []
  end.

(** ToBoolean *)
Definition truthy (v : jsval) : bool :=
  match v with
  | Undefined | JNull => false
  | JBool b => b
  | JNum z => negb (z =? 0)%Z
  | JStr s => negb (JsString.eqb s [])
  | JArr _ | JObj _ => true
  end.

Definition join (sep : jsstring) (parts : list jsstring) : jsstring :=
  match parts with
  | [] => []
  | p :: r => p ++ flat_map (fun q => sep ++ q) r
  end.

(** ToString, as a template literal applies it to a substitution.  An
    object is printed by the inherited [toString]; one that owns a
    property of that name, which cannot be a function, is not
    convertible.  A number beyond 2^53 in size, which is printed with
    the shortest digits that identify its double or in exponent
    form, is left out. *)
Fixpoint to_string (v : jsval) : outcome jsstring :=
  match v with
  | Undefined => Ok (str "undefined")
  | JNull => Ok (str "null")
  | JBool true => Ok (str "true")
  | JBool false => Ok (str "false")
  | JNum z =>
      if (Z.abs z <=? 2 ^ 53)%Z
      then Ok (if (z <? 0)%Z then str "-" ++ decimal (Z.to_N (- z)) else decimal (Z.to_N z))
      else Unmodelled
  | JStr s => Ok s
  | JArr items =>
      bind ((fix each (l : list jsval) : outcome (list jsstring) :=
               match l with
               | [] => Ok []
               | x :: r =>
                   bind (match x with
                         | Undefined | JNull => Ok []
                         | _ => to_string x
                         end) (fun p =>
                   bind (each r) (fun ps => Ok (p :: ps)))
               end) items)
           (fun parts => Ok (join (str ",") parts))
  | JObj fields =>
      match lookup (str "toString") fields with
      | Undefined => Ok (str "[object Object]")
      | _ => Throw TypeError
      end
  end.

End Js.
Import Js.
Local Open Scope outcome_scope.

(** ** Location resolution *)

Record Location : Type := mkLocation {
  placeId : jsval;
  name : jsstring
}.

(** The settled promise of [axios.post]: rejected, or resolved with a
    response whose [data] is the decoded body. *)
Inductive http_result : Type :=
| Rejected
| Resolved (data : jsval).

(** The number of iterations that [i < locationsRaw.placeId.length]
    allows.  An array and a string have their length; any other value
    without an own [length] bounds no iteration.  The own [length] of
    an object is coerced by [<]: a number bounds the loop by itself,
    [true] by 1, [false] and [null] by 0; the coercion of a string,
    an array or an object to a number is left out. *)
Definition array_length (v : jsval) : outcome nat :=
  match v with
  | JArr items => Ok (List.length items)
  | JStr s => Ok (List.length s)
  | JObj fields =>
      match lookup (str "length") fields with
      | Undefined | JNull | JBool false => Ok O
      | JBool true => Ok 1
      | JNum z => Ok (Z.to_nat z)
      | JStr _ | JArr _ | JObj _ => Unmodelled
      end
  | _ => Ok O
  end.

(** The body of the [for] loop of [fetchLocations] at index [i]; each
    substitution of the template literal is read, then converted,
    before the next. *)
Definition location_at (locationsRaw : jsval) (i : nat) : outcome Location :=
  ids <- get locationsRaw (str "placeId") ;;
  id <- get_index ids i ;;
  cities <- get locationsRaw (str "city") ;;
  city <- get_index cities i ;;
  cityText <- to_string city ;;
  districts <- get locationsRaw (str "adminDistrict") ;;
  district <- get_index districts i ;;
  districtText <- to_string district ;;
  countries <- get locationsRaw (str "country") ;;
  country <- get_index countries i ;;
  countryText <- to_string country ;;
  Ok {| placeId := id;
        name := cityText ++ str ", " ++ districtText ++ str ", " ++ countryText |}.

Fixpoint collect (locationsRaw : jsval) (indices : list nat) : outcome (list Location) :=
  match indices with
  | [] => Ok []
  | i :: r =>
      l <- location_at locationsRaw i ;;
      ls <- collect locationsRaw r ;;
      Ok (l :: ls)
  end.

(** The projection of [locationsRaw] into the [locations] array. *)
Definition project (locationsRaw : jsval) : outcome (list Location) :=
  if truthy locationsRaw then
    ids <- get locationsRaw (str "placeId") ;;
    if truthy ids then
      n <- array_length ids ;;
      collect locationsRaw (seq 0 n)
    else Ok []
  else Ok [].

(** [dalResponse[Object.keys(dalResponse)[0]]]; with no key the read
    is [dalResponse[undefined]]. *)
Definition first_key_value (dalResponse : jsval) : outcome jsval :=
  ks <- keys dalResponse ;;
  match ks with
  | dynamicKey :: _ => get dalResponse dynamicKey
  | [] => get dalResponse (str "undefined")
  end.

(** [fetchLocations], from the settled search request on. *)
Definition fetchLocations (locationResponse : http_result) : outcome (list Location) :=
  match locationResponse with
  | Rejected => Throw NetworkError
  | Resolved data =>
      dal <- get data (str "dal") ;;
      dalResponse <- get dal (str "getSunV3LocationSearchUrlConfig") ;;
      entry <- first_key_value dalResponse ;;
      payload <- get entry (str "data") ;;
      locationsRaw <- get payload (str "location") ;;
      project locationsRaw
  end.

(** The envelope of a search response whose namespace object has the
    given fields. *)
Definition envelope (fields : list (jsstring * jsval)) : http_result :=
  Resolved (JObj [(str "dal",
    JObj [(str "getSunV3LocationSearchUrlConfig", JObj fields)])]).

(** The entry under one key: an object whose [data.location] holds the
    parallel arrays. *)
Definition entry_of (ids cities districts countries : list jsval) : jsval :=
  JObj [(str "loading", JBool false);
        (str "data", JObj [(str "location",
           JObj [(str "placeId", JArr ids); (str "city", JArr cities);
                 (str "adminDistrict", JArr districts);
                 (str "country", JArr countries)])])].

Local Close Scope outcome_scope.

(** ** The document and cheerio selections

    The tree [cheerio.load] parses the page into, and the cheerio
    calls the weather module makes on it: [$(selector, context)],
    [find], [is], [text], [first], [last], [slice], [each],
    [children], [clone], [remove] and [end].  A selector is kept as
    the syntax tree of the source's string, for the fragment of CSS
    the source uses: tag names, the attribute tests [=], [^=] and
    [*=], [:nth-child], and the descendant and child combinators. *)

Module Dom.

Inductive node : Type :=
| Elem (tag : jsstring) (attrs : list (jsstring * jsstring)) (children : list node)
| Text (data : jsstring)
| Comment (data : jsstring).

Definition is_elem (n : node) : bool :=
  match n with
  | Elem _ _ _ => true
  | _ => false
  end.

Definition children_of (n : node) : list node :=
  match n with
  | Elem _ _ cs => cs
  | _ => []
  end.

(** [textContent]: the text nodes below a node, in document order. *)
Fixpoint textContent (n : node) : jsstring :=
  match n with
  | Elem _ _ cs => flat_map textContent cs
  | Text d => d
  | Comment _ => []
  end.

(** A node stripped of its element children; text and comments
    stay. *)
Definition without_children (n : node) : node :=
  match n with
  | Elem t a cs => Elem t a (filter (fun c => negb (is_elem c)) cs)
  | _ => n
  end.

(** The text a node keeps once its element children are gone. *)
Definition own_text (n : node) : jsstring := textContent (without_children n).

(** Induction over a tree, with the property known of all children. *)
Fixpoint node_ind' (P : node -> Prop)
    (HElem : forall t a cs, Forall P cs -> P (Elem t a cs))
    (HText : forall d, P (Text d))
    (HComment : forall d, P (Comment d))
    (n : node) {struct n} : P n :=
  match n with
  | Elem t a cs =>
      HElem t a cs
        ((fix all (l : list node) : Forall P l :=
            match l with
            | [] => Forall_nil P
            | c :: r => Forall_cons c (node_ind' HElem HText HComment c) (all r)
            end) cs)
  | Text d => HText d
  | Comment d => HComment d
  end.

(** *** Selectors *)

Inductive simple : Type :=
| Tag (name : jsstring)
| AttrEq (name value : jsstring)
| AttrPrefix (name value : jsstring)
| AttrContains (name value : jsstring)
| NthChild (k : nat).

Definition compound : Type := list simple.

(** A complex selector, read from the right: [Desc l c] is [l c] and
    [Child l c] is [l > c]. *)
Inductive selector : Type :=
| Compound (c : compound)
| Desc (l : selector) (c : compound)
| Child (l : selector) (c : compound).

Definition quote : jsstring := [34%N].

Definition show_simple (s : simple) : jsstring :=
  match s with
  | Tag n => n
  | AttrEq n v => str "[" ++ n ++ str "=" ++ quote ++ v ++ quote ++ str "]"
  | AttrPrefix n v => str "[" ++ n ++ str "^=" ++ quote ++ v ++ quote ++ str "]"
  | AttrContains n v => str "[" ++ n ++ str "*=" ++ quote ++ v ++ quote ++ str "]"
  | NthChild k => str ":nth-child(" ++ decimal (N.of_nat k) ++ str ")"
  end.

(** The selector as the source writes it. *)
Fixpoint show (s : selector) : jsstring :=
  match s with
  | Compound c => flat_map show_simple c
  | Desc l c => show l ++ str " " ++ flat_map show_simple c
  | Child l c => show l ++ str " > " ++ flat_map show_simple c
  end.

(** What a selector sees of an element: its tag, its attributes and
    its position among the element children of its parent, from 1. *)
Record einfo : Type := mkInfo {
  e_tag : jsstring;
  e_attrs : list (jsstring * jsstring);
  e_pos : nat
}.

Fixpoint attr (n : jsstring) (attrs : list (jsstring * jsstring)) : option jsstring :=
  match attrs with
  | [] => None
  | (k, v) :: r => if JsString.eqb n k then Some v else attr n r
  end.

Fixpoint contains (p s : jsstring) : bool :=
  starts_with p s ||
  match s with
  | [] => false
  | _ :: r => contains p r
  end.

Definition attr_test (test : jsstring -> bool) (n : jsstring) (e : einfo) : bool :=
  match attr n (e_attrs e) with
  | Some v => test v
  | None => false
  end.

(** An empty operand of [^=] or [*=] matches nothing. *)
Definition matches_simple (s : simple) (e : einfo) : bool :=
  match s with
  | Tag n => JsString.eqb n (e_tag e)
  | AttrEq n v => attr_test (JsString.eqb v) n e
  | AttrPrefix n v => negb (JsString.eqb v []) && attr_test (starts_with v) n e
  | AttrContains n v => negb (JsString.eqb v []) && attr_test (contains v) n e
  | NthChild k => Nat.eqb (e_pos e) k
  end.

Definition matches_compound (c : compound) (e : einfo) : bool :=
  forallb (fun s => matches_simple s e) c.

(** [some_ancestor f ups]: [f] holds of one element of [ups], given
    with the elements above it. *)
Fixpoint some_ancestor (f : einfo -> list einfo -> bool) (ups : list einfo) : bool :=
  match ups with
  | [] => false
  | p :: r => f p r || some_ancestor f r
  end.

(** An element matches a selector, given its ancestors inside the
    scope, nearest first. *)
Fixpoint matches (s : selector) (e : einfo) (ups : list einfo) : bool :=
  match s with
  | Compound c => matches_compound c e
  | Desc l c => matches_compound c e && some_ancestor (matches l) ups
  | Child l c =>
      matches_compound c e &&
      match ups with
      | [] => false
      | p :: r => matches l p r
      end
  end.

(** *** Search below a scope *)

Definition path : Type := list nat.

(** The descendants-or-self of [n] that match, as paths below [n], in
    document order.  [pos] is the position of [n] among its element
    siblings. *)
Fixpoint find_node (s : selector) (ups : list einfo) (pos : nat) (n : node) : list path :=
  match n with
  | Elem t a cs =>
      let e := mkInfo t a pos in
      (if matches s e ups then [[]] else []) ++
      (fix kids (i before : nat) (l : list node) {struct l} : list path :=
         match l with
         | [] => []
         | c :: r =>
             List.map (cons i) (find_node s (e :: ups) (S before) c)
             ++ kids (S i) (if is_elem c then S before else before) r
         end) O O cs
  | _ => []
  end.

(** The same over a list of siblings, of which [i] came before, [before]
    of them elements. *)
Fixpoint find_forest (s : selector) (ups : list einfo) (i before : nat)
    (l : list node) : list path :=
  match l with
  | [] => []
  | c :: r =>
      List.map (cons i) (find_node s ups (S before) c)
      ++ find_forest s ups (S i) (if is_elem c then S before else before) r
  end.

(** *** The store *)

Inductive root : Type :=
| Page
| Detached (k : nat).

Record handle : Type := mkHandle {
  h_root : root;
  h_path : path
}.

Definition selection : Type := list handle.

Record store : Type := mkStore {
  page : list node;
  detached : list (list node);
  log : list jsstring
}.

Definition root_eqb (a b : root) : bool :=
  match a, b with
  | Page, Page => true
  | Detached j, Detached k => Nat.eqb j k
  | _, _ => false
  end.

Fixpoint path_eqb (p q : path) : bool :=
  match p, q with
  | [], [] => true
  | i :: p', j :: q' => Nat.eqb i j && path_eqb p' q'
  | _, _ => false
  end.

Definition handle_eqb (a b : handle) : bool :=
  root_eqb (h_root a) (h_root b) && path_eqb (h_path a) (h_path b).

(** [p] is a proper prefix of [q]. *)
Fixpoint above (p q : path) : bool :=
  match p, q with
  | [], _ :: _ => true
  | i :: p', j :: q' => Nat.eqb i j && above p' q'
  | _, _ => false
  end.

Definition forest_of (st : store) (r : root) : list node :=
  match r with
  | Page => page st
  | Detached k => nth k (detached st) []
  end.

Fixpoint node_in (f : list node) (p : path) : option node :=
  match p with
  | [] => None
  | i :: r =>
      match nth_error f i, r with
      | Some n, [] => Some n
      | Some (Elem _ _ cs), _ => node_in cs r
      | _, _ => None
      end
  end.

Definition node_at (st : store) (h : handle) : option node :=
  node_in (forest_of st (h_root h)) (h_path h).

Definition elem_pos (f : list node) (i : nat) : nat :=
  S (List.length (filter is_elem (firstn i f))).

(** The selector's view of the element at a path and of its
    ancestors. *)
Fixpoint chain_in (ups : list einfo) (f : list node) (p : path)
    : option (einfo * list einfo) :=
  match p with
  | [] => None
  | i :: r =>
      match nth_error f i with
      | Some (Elem t a cs) =>
          let e := mkInfo t a (elem_pos f i) in
          match r with
          | [] => Some (e, ups)
          | _ => chain_in (e :: ups) cs r
          end
      | _ => None
      end
  end.

(** The handles of a selection that have no other handle of it above
    them, without repetition (the scopes a search starts from). *)
Fixpoint outermost_from (seen : selection) (hs : selection) (all : selection) : selection :=
  match hs with
  | [] => []
  | h :: r =>
      if existsb (handle_eqb h) seen
         || existsb (fun a => root_eqb (h_root a) (h_root h)
                              && above (h_path a) (h_path h)) all
      then outermost_from seen r all
      else h :: outermost_from (h :: seen) r all
  end.

Definition outermost (hs : selection) : selection := outermost_from [] hs hs.

Definition below (h : handle) (p : path) : handle :=
  mkHandle (h_root h) (h_path h ++ p).

(** [$(selector, context)]: with no context the search is below the
    page's root; with a selection as context it is [context.find]. *)
Definition select (st : store) (s : selector) (context : option selection) : selection :=
  match context with
  | None => List.map (mkHandle Page) (find_forest s [] O O (page st))
  | Some hs =>
      flat_map (fun h =>
        match node_at st h with
        | Some (Elem _ _ cs) => List.map (below h) (find_forest s [] O O cs)
        | _ => []
        end) (outermost hs)
  end.

(** The nodes a selection holds. *)
Definition nodes_of (st : store) (hs : selection) : list node :=
  flat_map (fun h => match node_at st h with
                     | Some n => [n]
                     | None => []
                     end) hs.

(** [.text()] *)
Definition text_of (st : store) (hs : selection) : jsstring :=
  flat_map (fun h => match node_at st h with
                     | Some n => textContent n
                     | None => []
                     end) hs.

(** [.is(selector)] *)
Definition is_ (st : store) (s : selector) (hs : selection) : bool :=
  existsb (fun h =>
    match chain_in [] (forest_of st (h_root h)) (h_path h) with
    | Some (e, ups) => matches s e ups
    | None => false
    end) hs.

(** [.first()], [.last()], [.slice(a)] and [.slice(a, b)] for
    non-negative bounds. *)
Definition first (hs : selection) : selection := firstn 1 hs.
Definition last (hs : selection) : selection := skipn (List.length hs - 1) hs.
Definition slice_from (a : nat) (hs : selection) : selection := skipn a hs.
Definition slice (a b : nat) (hs : selection) : selection := firstn (b - a) (skipn a hs).

Fixpoint elem_indices (i : nat) (cs : list node) : list nat :=
  match cs with
  | [] => []
  | c :: r => (if is_elem c then [i] else []) ++ elem_indices (S i) r
  end.

(** [.children()]: the element children. *)
Definition children (st : store) (hs : selection) : selection :=
  flat_map (fun h =>
    match node_at st h with
    | Some (Elem _ _ cs) => List.map (fun i => below h [i]) (elem_indices O cs)
    | _ => []
    end) hs.

(** [prune dead n]: [n] without the descendants whose path below [n]
    is [dead]. *)
Fixpoint prune (dead : path -> bool) (n : node) : node :=
  match n with
  | Elem t a cs =>
      Elem t a
        ((fix kids (d : path -> bool) (i : nat) (l : list node) {struct l} : list node :=
            match l with
            | [] => []
            | c :: r =>
                if d [i] then kids d (S i) r
                else prune (fun p => d (i :: p)) c :: kids d (S i) r
            end) dead O cs)
  | _ => n
  end.

Fixpoint prune_forest (dead : path -> bool) (i : nat) (l : list node) : list node :=
  match l with
  | [] => []
  | c :: r =>
      if dead [i] then prune_forest dead (S i) r
      else prune (fun p => dead (i :: p)) c :: prune_forest dead (S i) r
  end.

Definition dead_in (hs : selection) (r : root) (p : path) : bool :=
  existsb (handle_eqb (mkHandle r p)) hs.

Fixpoint prune_detached (hs : selection) (k : nat) (ds : list (list node))
    : list (list node) :=
  match ds with
  | [] => []
  | d :: r => prune_forest (dead_in hs (Detached k)) O d :: prune_detached hs (S k) r
  end.

(** *** Operations that change the store *)

Definition M (A : Type) : Type := store -> A * store.

Definition ret {A : Type} (a : A) : M A := fun st => (a, st).

Definition bind {A B : Type} (m : M A) (k : A -> M B) : M B :=
  fun st => let '(a, st') := m st in k a st'.

Definition read {A : Type} (f : store -> A) : M A := fun st => (f st, st).

(** [console.error(line)] *)
Definition console_error (line : jsstring) : M unit :=
  fun st => (tt, mkStore (page st) (detached st) (log st ++ [line])).

(** The handles of the [n] children of the detached document [k]. *)
Definition copy_handles (k n : nat) : selection :=
  List.map (fun i => mkHandle (Detached k) [i]) (seq O n).

(** [.clone()]: deep copies of the selected nodes, placed as the
    children of a fresh detached document. *)
Definition clone (hs : selection) : M selection :=
  fun st =>
    let copies := nodes_of st hs in
    (copy_handles (List.length (detached st)) (List.length copies),
     mkStore (page st) (detached st ++ [copies]) (log st)).

(** [.remove()]: the selected nodes leave the trees they are in. *)
Definition remove (hs : selection) : M unit :=
  fun st =>
    (tt, mkStore (prune_forest (dead_in hs Page) O (page st))
                 (prune_detached hs O (detached st))
                 (log st)).

Fixpoint mapM {A B : Type} (f : A -> M B) (l : list A) : M (list B) :=
  match l with
  | [] => ret []
  | a :: r => bind (f a) (fun b => bind (mapM f r) (fun bs => ret (b :: bs)))
  end.

End Dom.
Import Dom.

Declare Scope dom_scope.
Notation "x <- m ;; k" := (Dom.bind m (fun x => k))
  (at level 61, m at next level, right associativity) : dom_scope.
Notation "m ;;; k" := (Dom.bind m (fun _ => k))
  (at level 61, right associativity) : dom_scope.

(** ** The weather module *)

Local Open Scope dom_scope.

(** [SELECTORS] *)
Module SELECTORS.

Definition testid (v : string) : compound := [AttrEq (str "data-testid") (str v)].
Definition class_has (v : string) : compound := [AttrContains (str "class") (str v)].

Definition followingDays : selector :=
  Child (Desc (Compound (testid "DailyWeatherModule")) (testid "WeatherTable"))
        [Tag (str "li")].
Definition today : selector :=
  Compound [AttrPrefix (str "id") (str "WxuTodayWeatherCard-main-")].
Definition todayDetails : selector := Compound (testid "TodaysDetailsModule").

Definition currentTemp : selector := Compound (class_has "CurrentConditions--tempValue--").
Definition currentCondition : selector := Compound (class_has "CurrentConditions--phraseValue").

Definition chanceOfRain : selector := Compound (class_has "Column--precip--").
Definition condition : selector := Compound (class_has "Column--iconPhrase--").
Definition temperature : selector := Compound (testid "TemperatureValue").
Definition wind : selector := Compound (testid "Wind").
Definition percentage : selector := Compound (testid "PercentageValue").

Definition uvIndex : selector := Compound (testid "UVIndexValue").

Definition periodOfDay : selector := Compound (class_has "Column--active--").
Definition time : selector := Compound (class_has "CurrentConditions--timestamp--").

(** The literal ['h3 span'] of the outlook loop. *)
Definition h3_span : selector := Desc (Compound [Tag (str "h3")]) [Tag (str "span")].

(** [`${todayCard} ul > li:nth-child(${segment})`] *)
Definition segment_row (todayCard : selector) (segment : nat) : selector :=
  Child (Desc todayCard [Tag (str "ul")]) [Tag (str "li"); NthChild segment].

End SELECTORS.

Module DayWeather.
Record t : Type := mk {
  tempHigh : option jsnum;
  tempLow : option jsnum;
  currentTime : option jsstring;
  currentTemp : option jsnum;
  currentFeltTemp : option jsnum;
  currentCondition : option jsstring;
  currentHumidity : option jsstring;
  currentUvIndex : option jsstring;
  currentWind : option jsstring;
  morningChanceOfRain : option jsstring;
  morningCondition : option jsstring;
  morningTemperature : option jsnum;
  afternoonChanceOfRain : option jsstring;
  afternoonCondition : option jsstring;
  afternoonTemperature : option jsnum;
  eveningChanceOfRain : option jsstring;
  eveningCondition : option jsstring;
  eveningTemperature : option jsnum;
  overnightChanceOfRain : option jsstring;
  overnightCondition : option jsstring;
  overnightTemperature : option jsnum;
  currentDayStage : option jsstring
}.
End DayWeather.

Module DayRoundWeather.
Record t : Type := mk {
  date : option jsstring;
  condition : option jsstring;
  chanceOfRain : option jsstring;
  tempLow : option jsnum;
  tempHigh : option jsnum
}.
End DayRoundWeather.

(** What [getSegmentData] returns. *)
Module Segment.
Record t : Type := mk {
  temp : option jsnum;
  condition : option jsstring;
  rain : option jsstring;
  active : bool
}.
End Segment.

Definition warning (selector : selector) : jsstring :=
  str "Warning: Selector not found: " ++ show selector.

(** [text || null] *)
Definition or_null (text : jsstring) : option jsstring :=
  match text with
  | [] => None
  | _ => Some text
  end.

Definition getText (selector : selector) (context : option selection) : M (option jsstring) :=
  element <- read (fun st => select st selector context) ;;
  if (0 <? List.length element)%nat then
    text <- read (fun st => trim (text_of st element)) ;;
    ret (or_null text)
  else
    console_error (warning selector) ;;;
    ret None.

Definition getPercentage (selector : selector) (context : option selection)
    : M (option jsstring) :=
  el <- read (fun st => select st selector context) ;;
  if negb (0 <? List.length el)%nat then
    console_error (warning selector) ;;;
    ret None
  else
    copy <- clone el ;;
    kids <- read (fun st => children st copy) ;;
    remove kids ;;;
    text <- read (fun st => text_of st copy) ;;
    ret (Some (trim text)).

Definition getTemp (selector : selector) (context : option selection) : M (option jsnum) :=
  text <- getText selector context ;;
  ret (normalizeTemperature (match text with Some t => t | None => [] end)).

(** [normalizeTemperature(card.find(SELECTORS.temperature).first().text())]
    and the same with [.last()]. *)
Definition first_temperature (card : selection) : M (option jsnum) :=
  read (fun st =>
    normalizeTemperature (text_of st (first (select st SELECTORS.temperature (Some card))))).

Definition last_temperature (card : selection) : M (option jsnum) :=
  read (fun st =>
    normalizeTemperature (text_of st (last (select st SELECTORS.temperature (Some card))))).

Definition getSegmentData (segment : nat) : M Segment.t :=
  segmentEl <- read (fun st => select st (SELECTORS.segment_row SELECTORS.today segment) None) ;;
  temp <- getTemp SELECTORS.temperature (Some segmentEl) ;;
  condition <- getText SELECTORS.condition (Some segmentEl) ;;
  rain <- getPercentage SELECTORS.chanceOfRain (Some segmentEl) ;;
  active <- read (fun st => is_ st SELECTORS.periodOfDay segmentEl) ;;
  ret (Segment.mk temp condition rain active).

(** The [if]/[else if] chain that sets [currentDayStage]. *)
Definition dayStage (morning afternoon evening overnight : Segment.t) : option jsstring :=
  if Segment.active morning then Some (str "Morning")
  else if Segment.active afternoon then Some (str "Afternoon")
  else if Segment.active evening then Some (str "Evening")
  else if Segment.active overnight then Some (str "Overnight")
  else None.

(** [getText(SELECTORS.time)?.replace("As of ", "") || null] *)
Definition as_of (text : option jsstring) : option jsstring :=
  match text with
  | Some t => or_null (remove_first (str "As of ") t)
  | None => None
  end.

(** The callback of [.each] in the outlook loop, for the row [el]. *)
Definition outlookRow (el : handle) : M DayRoundWeather.t :=
  let dayCard := [el] in
  highTemp <- first_temperature dayCard ;;
  lowTemp <- last_temperature dayCard ;;
  date <- getText SELECTORS.h3_span (Some dayCard) ;;
  condition <- getText SELECTORS.condition (Some dayCard) ;;
  chanceOfRain <- getPercentage SELECTORS.chanceOfRain (Some dayCard) ;;
  ret (DayRoundWeather.mk date condition chanceOfRain lowTemp highTemp).

(** [$(SELECTORS.followingDays).slice(1).each(...)], filling [next]. *)
Definition nextDays : M (list DayRoundWeather.t) :=
  rows <- read (fun st => slice_from 1 (select st SELECTORS.followingDays None)) ;;
  mapM outlookRow rows.

Definition todayWeather : M DayWeather.t :=
  todayDetailsCard <- read (fun st => select st SELECTORS.todayDetails None) ;;
  currentTemp <- getTemp SELECTORS.currentTemp None ;;
  currentFeltTemp <- getTemp SELECTORS.temperature (Some todayDetailsCard) ;;
  currentCondition <- getText SELECTORS.currentCondition None ;;
  time <- getText SELECTORS.time None ;;
  let currentTime := as_of time in
  currentUvIndex <- getText SELECTORS.uvIndex (Some todayDetailsCard) ;;
  currentWind <- getText SELECTORS.wind (Some todayDetailsCard) ;;
  currentHumidity <- getPercentage SELECTORS.percentage (Some todayDetailsCard) ;;
  highTemp <- first_temperature todayDetailsCard ;;
  lowTemp <- last_temperature todayDetailsCard ;;
  morning <- getSegmentData 1 ;;
  afternoon <- getSegmentData 2 ;;
  evening <- getSegmentData 3 ;;
  overnight <- getSegmentData 4 ;;
  let currentDayStage := dayStage morning afternoon evening overnight in
  ret (DayWeather.mk highTemp lowTemp
         currentTime currentTemp currentFeltTemp currentCondition
         currentHumidity currentUvIndex currentWind
         (Segment.rain morning) (Segment.condition morning) (Segment.temp morning)
         (Segment.rain afternoon) (Segment.condition afternoon) (Segment.temp afternoon)
         (Segment.rain evening) (Segment.condition evening) (Segment.temp evening)
         (Segment.rain overnight) (Segment.condition overnight) (Segment.temp overnight)
         currentDayStage).

(** The store [cheerio.load] starts from. *)
Definition load (markup : list node) : store := mkStore markup [] [].

(** [fetchWeather], from the parsed page on: the forecast, and the
    store the run ends in (its log holds the warnings). *)
Definition fetchWeather (markup : list node)
    : (DayWeather.t * list DayRoundWeather.t) * store :=
  (today <- todayWeather ;;
   next <- nextDays ;;
   ret (today, next)) (load markup).

(** ** The stand-alone command line variant ([getWeather]) *)

Module Cli.

Definition getText (selector : selector) (context : option selection) : M (option jsstring) :=
  element <- read (fun st => select st selector context) ;;
  if (0 <? List.length element)%nat then
    text <- read (fun st => trim (text_of st element)) ;;
    ret (Some text)
  else
    console_error (warning selector) ;;;
    ret None.

(** Its [getPercentage] is the one of the weather module, word for
    word. *)
Definition getPercentage := getPercentage.

(** [x.length > 0 ? parseInt(x.text().replace('°', ''), 10) : null] *)
Definition temperature_of (x : selection) : M (option jsnum) :=
  read (fun st =>
    if (0 <? List.length x)%nat
    then Some (parseInt10 (remove_first degree (text_of st x)))
    else None).

Definition outlookRow (el : handle) : M DayRoundWeather.t :=
  let dayCard := [el] in
  highTemp <- read (fun st => first (select st SELECTORS.temperature (Some dayCard))) ;;
  lowTemp <- read (fun st => last (select st SELECTORS.temperature (Some dayCard))) ;;
  date <- getText SELECTORS.h3_span (Some dayCard) ;;
  condition <- getText SELECTORS.condition (Some dayCard) ;;
  chanceOfRain <- getPercentage SELECTORS.chanceOfRain (Some dayCard) ;;
  tempHigh <- temperature_of highTemp ;;
  tempLow <- temperature_of lowTemp ;;
  ret (DayRoundWeather.mk date condition chanceOfRain tempLow tempHigh).

(** [$(SELECTORS.followingDays).slice(1, 3).each(...)] *)
Definition nextDays : M (list DayRoundWeather.t) :=
  rows <- read (fun st => slice 1 3 (select st SELECTORS.followingDays None)) ;;
  mapM outlookRow rows.

(** [text ? parseInt(text.replace('°', ''), 10) : null]: the empty
    string is falsy. *)
Definition getTemp (selector : selector) (context : option selection) : M (option jsnum) :=
  text <- getText selector context ;;
  ret (match text with
       | Some (c :: r) => Some (parseInt10 (remove_first degree (c :: r)))
       | _ => None
       end).

(** What the [getSegmentData] of this variant returns. *)
Module Quarter.
Record t : Type := mk {
  temp : option jsnum;
  condition : option jsstring;
  rain : option jsstring
}.
End Quarter.

Definition getSegmentData (segment : nat) : M Quarter.t :=
  segmentEl <- read (fun st => select st (SELECTORS.segment_row SELECTORS.today segment) None) ;;
  temp <- getTemp SELECTORS.temperature (Some segmentEl) ;;
  condition <- getText SELECTORS.condition (Some segmentEl) ;;
  rain <- getPercentage SELECTORS.chanceOfRain (Some segmentEl) ;;
  ret (Quarter.mk temp condition rain).

(** The [DayWeather] of this variant: the breakdown alone. *)
Module DayWeather.
Record t : Type := mk {
  morningChanceOfRain : option jsstring;
  morningCondition : option jsstring;
  morningTemperature : option jsnum;
  afternoonChanceOfRain : option jsstring;
  afternoonCondition : option jsstring;
  afternoonTemperature : option jsnum;
  eveningChanceOfRain : option jsstring;
  eveningCondition : option jsstring;
  eveningTemperature : option jsnum;
  overnightChanceOfRain : option jsstring;
  overnightCondition : option jsstring;
  overnightTemperature : option jsnum
}.
End DayWeather.

Definition todayWeather : M DayWeather.t :=
  morning <- getSegmentData 1 ;;
  afternoon <- getSegmentData 2 ;;
  evening <- getSegmentData 3 ;;
  overnight <- getSegmentData 4 ;;
  ret (DayWeather.mk
         (Quarter.rain morning) (Quarter.condition morning) (Quarter.temp morning)
         (Quarter.rain afternoon) (Quarter.condition afternoon) (Quarter.temp afternoon)
         (Quarter.rain evening) (Quarter.condition evening) (Quarter.temp evening)
         (Quarter.rain overnight) (Quarter.condition overnight) (Quarter.temp overnight)).

(** The extraction of [getWeather], from the parsed page on. *)
Definition extract (markup : list node) : (DayWeather.t * list DayRoundWeather.t) * store :=
  (today <- todayWeather ;;
   next <- nextDays ;;
   ret (today, next)) (load markup).

End Cli.

Local Close Scope dom_scope.

(** ** Sample markup *)

Module Sample.

Definition el (tag : string) (attrs : list (string * string)) (cs : list node) : node :=
  Elem (str tag) (List.map (fun kv => (str (fst kv), str (snd kv))) attrs) cs.

Definition txt (s : string) : node := Text (str s).

(** A leaf holding a temperature such as [72°]. *)
Definition temp (digits : string) : node :=
  el "span" [("data-testid", "TemperatureValue")] [Text (str digits ++ degree)].

(** A rain cell: an icon, a hidden label, then the figure as plain
    text. *)
Definition precip (figure : string) : node :=
  el "div" [("class", "Column--precip--3JCDO")]
    [el "svg" [("name", "precip-rain-single")] [el "title" [] [txt "Rain"]];
     el "span" [("class", "Accessibility--visuallyHidden--H7O4p")] [txt "Chance of Rain"];
     txt figure].

(** A row of the today card; [cls] is the class of its [li]. *)
Definition segment (cls label digits phrase figure : string) : node :=
  el "li" [("class", cls)]
    [el "a" []
       [el "h3" [] [el "span" [] [txt label]];
        el "div" [("class", "Column--temp--1sO_J")] [temp digits];
        el "div" [("class", "Column--icon--2TNH3")]
          [el "span" [("class", "Column--iconPhrase--xVO9f")] [txt phrase]];
        precip figure]].

Definition idle : string := "Column--column--3tAuz".
Definition lit : string := "Column--column--3tAuz Column--active--27U5T".

Definition todayCard (c1 c2 c3 c4 : string) : node :=
  el "div" [("id", "WxuTodayWeatherCard-main-9889d8b8")]
    [el "section" []
       [el "ul" [("data-testid", "WeatherTable")]
          [segment c1 "Morning" "61" "Sunny" "2%";
           segment c2 "Afternoon" "74" "Cloudy" "20%";
           segment c3 "Evening" "68" "Rain" "55%";
           segment c4 "Overnight" "59" "Clear" "7%"]]].

Definition details : node :=
  el "section" [("data-testid", "TodaysDetailsModule")]
    [el "div" [] [temp "75"; txt "/"; temp "58"];
     el "div" [("data-testid", "wind")] [el "span" [("data-testid", "Wind")] [txt "7 mph"]];
     el "div" [] [el "span" [("data-testid", "PercentageValue")] [txt "64%"]];
     el "div" [] [el "span" [("data-testid", "UVIndexValue")] [txt "3 of 11"]]].

(** A row of the daily table. *)
Definition day (label hi lo phrase figure : string) : node :=
  el "li" [("class", idle)]
    [el "a" []
       [el "h3" [] [el "span" [] [txt label]];
        el "div" [] [temp hi; txt "/"; temp lo];
        el "span" [("class", "Column--iconPhrase--xVO9f")] [txt phrase];
        precip figure]].

Definition daily : node :=
  el "div" [("data-testid", "DailyWeatherModule")]
    [el "h2" [] [txt "Daily Forecast"];
     el "ul" [("data-testid", "WeatherTable")]
       [day "Today" "75" "58" "Cloudy" "20%";
        day "Tue 04" "71" "55" "Showers" "40%";
        day "Wed 05" "66" "50" "Rain" "80%";
        day "Thu 06" "64" "49" "Sunny" "5%";
        day "Fri 07" "69" "52" "Clear" "3%"]].

Definition current : node :=
  el "div" [("class", "CurrentConditions--header--kbXKR")]
    [el "span" [("class", "CurrentConditions--timestamp--1ybTk")] [txt "As of 2:14 pm EDT"];
     el "span" [("class", "CurrentConditions--tempValue--MHmYY")] [Text (str "73" ++ degree)];
     el "div" [("class", "CurrentConditions--phraseValue--mZC_p")] [txt "Cloudy"]].

(** A page with all modules; the afternoon and the evening rows both
    carry the active class. *)
Definition markup : list node :=
  [el "html" []
     [el "head" [] [el "title" [] [txt "Weather"]];
      el "body" [] [current; details; todayCard idle lit lit idle; daily]]].

(** The same page after a redesign that dropped the today card. *)
Definition no_today : list node :=
  [el "html" []
     [el "head" [] [el "title" [] [txt "Weather"]];
      el "body" [] [current; details; daily]]].

(** A page that has the today card and no daily table. *)
Definition no_daily : list node :=
  [el "html" []
     [el "head" [] [el "title" [] [txt "Weather"]];
      el "body" [] [current; details; todayCard idle lit idle idle]]].

(** A page with none of the modules. *)
Definition blank : list node :=
  [el "html" [] [el "head" [] []; el "body" [] [txt "Service unavailable"]]].

(** A page whose only rain cell holds an icon and white space. *)
Definition dry : list node :=
  [el "div" [("class", "Column--precip--3JCDO")] [el "svg" [] []; txt "  "]].

(** A search response with two keys under the namespace. *)
Definition two_keys : list (jsstring * jsval) :=
  [(str "language:en-US;locationType:locale;query:Gary",
    entry_of [JStr (str "a1b2c3")] [JStr (str "Gary")] [JStr (str "Indiana")]
             [JStr (str "United States")]);
   (str "v2:language:en-US;query:Gary",
    entry_of [JStr (str "ffff00")] [JStr (str "Gary")] [JStr (str "Texas")]
             [JStr (str "United States")])].

End Sample.

(** ** Notions the properties are stated with *)

(** The store after [lines] were written to the log. *)
Definition logged (st : store) (lines : list jsstring) : store :=
  mkStore (page st) (detached st) (log st ++ lines).

(** The text of the text nodes that are children of the selected
    nodes themselves. *)
Definition own_text_of (st : store) (hs : selection) : jsstring :=
  flat_map own_text (nodes_of st hs).

(** [.text()] of one node. *)
Definition node_text (st : store) (h : handle) : jsstring := text_of st [h].

Definition on_page (hs : selection) : Prop :=
  Forall (fun h => h_root h = Page) hs.

(** Document order inside one tree. *)
Fixpoint path_ltb (p q : path) : bool :=
  match p, q with
  | [], _ :: _ => true
  | i :: p', j :: q' => (i <? j)%nat || (Nat.eqb i j && path_ltb p' q')
  | _, [] => false
  end.

Definition path_lt (p q : path) : Prop := path_ltb p q = true.

Definition before (a b : handle) : Prop :=
  h_root a = h_root b /\ path_ltb (h_path a) (h_path b) = true.

(** The active flag of the row of a segment, read off the page:
    [segmentEl.is(SELECTORS.periodOfDay)]. *)
Definition row_active (markup : list node) (segment : nat) : bool :=
  let st := load markup in
  is_ st SELECTORS.periodOfDay
      (select st (SELECTORS.segment_row SELECTORS.today segment) None).

(** The label of the first flagged entry. *)
Definition first_flagged (l : list (jsstring * bool)) : option jsstring :=
  option_map fst (List.find snd l).


(** The forecast and the outlook of a run. *)
Definition today_of (markup : list node) : DayWeather.t := fst (fst (fetchWeather markup)).
Definition next_of (markup : list node) : list DayRoundWeather.t := snd (fst (fetchWeather markup)).

(** High and low of a card by the first/last convention. *)
Definition high_of (st : store) (card : selection) : option jsnum :=
  match select st SELECTORS.temperature (Some card) with
  | [] => None
  | h :: _ => normalizeTemperature (node_text st h)
  end.

Definition low_of (st : store) (card : selection) : option jsnum :=
  match rev (select st SELECTORS.temperature (Some card)) with
  | [] => None
  | h :: _ => normalizeTemperature (node_text st h)
  end.

(** [st'] is [st] after some steps of a run: the page is the same and
    the log has only grown. *)
Definition grows (st st' : store) : Prop :=
  page st' = page st /\ exists lines, log st' = log st ++ lines.

(** A computation that never touches the page and only appends to the
    log. *)
Definition steady {A : Type} (m : M A) : Prop :=
  forall st, grows st (snd (m st)).

(** The context of a lookup lies in the page. *)
Definition context_on_page (context : option selection) : Prop :=
  match context with
  | None => True
  | Some hs => on_page hs
  end.

(** The leftmost compound of a selector. *)
Fixpoint leftmost (s : selector) : compound :=
  match s with
  | Compound c => c
  | Desc l _ => leftmost l
  | Child l _ => leftmost l
  end.

(** The three warnings of one [getSegmentData] call that finds no
    row, in the order of its lookups. *)
Definition segment_warnings : list jsstring :=
  [warning SELECTORS.temperature; warning SELECTORS.condition;
   warning SELECTORS.chanceOfRain].


(** ** Choosing a place *)

Module Choice.
Record t : Type := mk {
  name : jsstring;
  value : Location
}.
End Choice.

(** [location => ({ name: location.name, value: location })]; the
    command line variant builds the same pair in its loop, with
    [display] for [name]. *)
Definition choice_of (location : Location) : Choice.t :=
  Choice.mk (name location) location.

Section Prompt.

(** What [inquirer.prompt] resolves [answer.selectedLocation] to, for
    the choices it is given. *)
Variable prompt : list Choice.t -> Location.

(** The place [weatherTUI] goes on with; [None] is [process.exit(1)]
    after the line [No locations found for the given query.] *)
Definition weatherTUI_select (isTTY : bool) (locations : list Location)
    : option Location :=
  let locationChoices := List.map choice_of (firstn 3 locations) in
  match locationChoices with
  | [] => None
  | c :: _ =>
      if (1 <? List.length locationChoices)%nat && isTTY
      then Some (prompt locationChoices)
      else Some (Choice.value c)
  end.

(** The same in [getWeather], where the list is cut at the prompt. *)
Definition getWeather_select (isTTY : bool) (locations : list Location)
    : option Location :=
  let locationChoices := List.map choice_of locations in
  match locationChoices with
  | [] => None
  | c :: _ =>
      if (1 <? List.length locationChoices)%nat && isTTY
      then Some (prompt (firstn 3 locationChoices))
      else Some (Choice.value c)
  end.

End Prompt.

(** A prompt answers with the value of one of the choices shown. *)
Definition answers_from_choices (prompt : list Choice.t -> Location) : Prop :=
  forall choices, choices <> [] -> In (prompt choices) (List.map Choice.value choices).

(** A user who always takes the last choice of the list. *)
Definition takes_last (choices : list Choice.t) : Location :=
  match rev choices with
  | c :: _ => Choice.value c
  | [] => mkLocation Undefined []
  end.

(** ** Further notions *)

(** The substitution [${xs[i]}] for an array of strings: past its end
    the read is [undefined]. *)
Definition text_at (xs : list jsstring) (i : nat) : jsstring :=
  match nth_error xs i with
  | Some s => s
  | None => str "undefined"
  end.

(** The place at position [i] of the parallel arrays. *)
Definition place_at (ids cities districts countries : list jsstring) (i : nat) : Location :=
  mkLocation (JStr (nth i ids []))
    (text_at cities i ++ str ", " ++ text_at districts i ++ str ", "
     ++ text_at countries i).

(** The [location] object of a response with arrays of strings. *)
Definition arrays_of (ids cities districts countries : list jsstring) : jsval :=
  entry_of (List.map JStr ids) (List.map JStr cities)
           (List.map JStr districts) (List.map JStr countries).

(** [entry.data.location], the value [fetchLocations] projects, for
    an entry of any shape. *)
Definition location_in (entry : jsval) : outcome jsval :=
  Js.bind (get entry (str "data")) (fun payload => get payload (str "location")).

(** An entry as the service sends it, whose [location] object has
    the given fields. *)
Definition entry_holding (locationFields : list (jsstring * jsval)) : jsval :=
  JObj [(str "loading", JBool false);
        (str "loaded", JBool true);
        (str "data", JObj [(str "location", JObj locationFields)]);
        (str "ttl", JNum 86400)].

(** A place as the response lists it: identifier, city, district,
    country. *)
Record Row : Type := mkRow {
  row_id : jsstring;
  row_city : jsstring;
  row_district : jsstring;
  row_country : jsstring
}.

(** The response that lists the given places under the key [k]. *)
Definition response_of (k : jsstring) (rows : list Row) : http_result :=
  envelope [(k, arrays_of (List.map row_id rows) (List.map row_city rows)
                          (List.map row_district rows) (List.map row_country rows))].

Definition place_of (r : Row) : Location :=
  mkLocation (JStr (row_id r))
    (row_city r ++ str ", " ++ row_district r ++ str ", " ++ row_country r).

(** A text with no white space at either end. *)
Definition starts_clean (t : jsstring) : bool :=
  match t with
  | [] => true
  | c :: _ => negb (is_space c)
  end.

Definition edge_clean (t : jsstring) : bool :=
  starts_clean t && starts_clean (rev t).

(** [text || null] applied to a value that may already be [null]. *)
Definition null_if_blank (v : option jsstring) : option jsstring :=
  match v with
  | Some [] => None
  | _ => v
  end.

(** The value of a computation run alone on the page as loaded. *)
Definition alone {A : Type} (m : M A) (markup : list node) : A :=
  fst (m (load markup)).

(** The selectors the leaf lookups of a run are called with. *)
Definition catalog : list selector :=
  [SELECTORS.currentTemp; SELECTORS.temperature; SELECTORS.currentCondition;
   SELECTORS.time; SELECTORS.uvIndex; SELECTORS.wind; SELECTORS.percentage;
   SELECTORS.condition; SELECTORS.chanceOfRain; SELECTORS.h3_span].

(** From [st] to [st'] the page stayed and at most [n] lines were
    written, each the warning of a selector of the catalog. *)
Definition wrote (n : nat) (st st' : store) : Prop :=
  page st' = page st
  /\ exists lines,
       log st' = log st ++ lines
       /\ List.length lines <= n
       /\ Forall (fun line => In line (List.map warning catalog)) lines.


(** * Properties *)

Unset Implicit Arguments.

(** ** Strings and numbers *)

#[local] Arguments N.eqb : simpl never.
#[local] Arguments N.leb : simpl never.

Lemma eqb_refl (a : jsstring) : JsString.eqb a a = true.
Proof.
  induction a as [|x a IH]; simpl; [reflexivity|].
  now rewrite N.eqb_refl, IH.
Qed.

Lemma eqb_eq (a b : jsstring) : JsString.eqb a b = true <-> a = b.
Proof.
  split; [|intros ->; apply eqb_refl].
  revert b; induction a as [|x a IH]; intros [|y b]; simpl; try discriminate; auto.
  intros H. apply andb_true_iff in H as [Hx Hr].
  apply N.eqb_eq in Hx. apply IH in Hr. congruence.
Qed.

Lemma trimStart_all_space (s : jsstring) : all_space s = true -> trimStart s = [].
Proof.
  induction s as [|c s IH]; simpl; [reflexivity|].
  intros H. apply andb_true_iff in H as [Hc Hs]. now rewrite Hc, IH.
Qed.

Lemma trim_all_space (s : jsstring) : all_space s = true -> trim s = [].
Proof.
  intros H. unfold trim. now rewrite trimStart_all_space.
Qed.

Lemma trimStart_clean (s : jsstring) : starts_clean (trimStart s) = true.
Proof.
  induction s as [|c s IH]; [reflexivity|]. simpl.
  destruct (is_space c) eqn:E; [exact IH|]. simpl. now rewrite E.
Qed.

Lemma trimStart_suffix (s : jsstring) :
  exists pre, s = pre ++ trimStart s /\ all_space pre = true.
Proof.
  induction s as [|c s (pre & Hs & Hpre)]; [now exists []|]. simpl.
  destruct (is_space c) eqn:E.
  - exists (c :: pre). simpl. rewrite E, Hpre. split; [now f_equal|reflexivity].
  - now exists [].
Qed.

Lemma all_space_app (a b : jsstring) :
  all_space (a ++ b) = all_space a && all_space b.
Proof. apply forallb_app. Qed.

Lemma all_space_rev (s : jsstring) : all_space (rev s) = all_space s.
Proof.
  induction s as [|c s IH]; [reflexivity|]. simpl.
  rewrite all_space_app, IH. simpl. rewrite andb_true_r. apply andb_comm.
Qed.

Lemma clean_all_space (t : jsstring) :
  starts_clean t = true -> all_space t = true -> t = [].
Proof.
  destruct t as [|c t]; [reflexivity|]. simpl. intros Hc Hs.
  apply andb_true_iff in Hs as [Hs _]. rewrite Hs in Hc. discriminate.
Qed.

Lemma trimStart_nil (s : jsstring) : trimStart s = [] -> all_space s = true.
Proof.
  intros H. destruct (trimStart_suffix s) as (pre & Hs & Hpre).
  rewrite H, app_nil_r in Hs. now subst.
Qed.

Lemma trim_nil (s : jsstring) : trim s = [] -> all_space s = true.
Proof.
  unfold trim, trimEnd. intros H.
  apply (f_equal (@rev N)) in H. rewrite rev_involutive in H. simpl in H.
  apply trimStart_nil in H. rewrite all_space_rev in H.
  apply trimStart_nil. apply clean_all_space; [apply trimStart_clean|exact H].
Qed.

Lemma trim_edge_clean (s : jsstring) : edge_clean (trim s) = true.
Proof.
  unfold edge_clean, trim, trimEnd. rewrite rev_involutive, trimStart_clean, andb_true_r.
  destruct (trimStart_suffix (rev (trimStart s))) as (pre & Hs & _).
  apply (f_equal (@rev N)) in Hs. rewrite rev_involutive, rev_app_distr in Hs.
  pose proof (trimStart_clean s) as Hc. rewrite Hs in Hc.
  destruct (rev (trimStart (rev (trimStart s)))); [reflexivity|exact Hc].
Qed.

(** What [trim] removes is white space at the two ends, and all of
    it. *)
Lemma trim_spec (s : jsstring) :
  exists pre post,
    s = pre ++ trim s ++ post
    /\ all_space pre = true /\ all_space post = true
    /\ edge_clean (trim s) = true.
Proof.
  destruct (trimStart_suffix s) as (pre & Hs & Hpre).
  destruct (trimStart_suffix (rev (trimStart s))) as (p & Hr & Hp).
  exists pre, (rev p). unfold trim at 1, trimEnd.
  apply (f_equal (@rev N)) in Hr. rewrite rev_involutive, rev_app_distr in Hr.
  rewrite <- Hr, <- Hs, all_space_rev.
  repeat split; try assumption. apply trim_edge_clean.
Qed.


Lemma space_not_degree (s : jsstring) :
  all_space s = true -> forallb (fun x => negb (176 =? x)%N) s = true.
Proof.
  induction s as [|x s IH]; simpl; [reflexivity|].
  intros H. apply andb_true_iff in H as [Hx Hs]. apply andb_true_iff. split; [|auto].
  destruct (176 =? x)%N eqn:E; [|reflexivity].
  apply N.eqb_eq in E. subst x. discriminate Hx.
Qed.

Lemma digit_facts (c : N) :
  is_digit c = true ->
  (176 =? c)%N = false /\ is_space c = false /\ (c =? 45)%N = false /\ (c =? 43)%N = false.
Proof.
  unfold is_digit, is_space. intros H. apply andb_true_iff in H as [Hlo Hhi].
  apply N.leb_le in Hlo, Hhi.
  repeat split;
    repeat match goal with
           | |- (_ || _)%bool = false => apply orb_false_iff; split
           | |- (_ && _)%bool = false => apply andb_false_iff
           end;
    try (apply N.eqb_neq; lia);
    try (left; apply N.leb_gt; lia); try (right; apply N.leb_gt; lia).
Qed.



Lemma digits_value_nonneg (ds : jsstring) :
  forallb is_digit ds = true -> (0 <= digits_value ds)%Z.
Proof.
  intros H. unfold digits_value.
  assert (G : forall a, (0 <= a)%Z ->
            (0 <= fold_left (fun acc c => 10 * acc + (Z.of_N c - 48)) ds a)%Z).
  { induction ds as [|c ds IH]; intros a Ha; [exact Ha|]. cbn [fold_left].
    cbn [forallb] in H. apply andb_true_iff in H as [Hc Hds]. apply IH; [exact Hds|].
    unfold is_digit in Hc. apply andb_true_iff in Hc as [Hlo _].
    apply N.leb_le in Hlo. lia. }
  apply G. lia.
Qed.

Lemma round53_exact (z : Z) : (0 < z < 2 ^ 53)%Z -> round53 z = z.
Proof.
  intros [Hpos Hlt]. unfold round53. cbv zeta.
  apply (Z.log2_lt_pow2 z 53 Hpos) in Hlt.
  destruct (Z.leb_spec (Z.log2 z - 52) 0); [reflexivity|lia].
Qed.

Lemma number_of_exact (negative : bool) (z : Z) :
  (0 < z < 2 ^ 53)%Z -> number_of negative z = Int (if negative then - z else z).
Proof.
  intros H. unfold number_of. cbv zeta. rewrite (round53_exact z H).
  destruct (Z.eqb_spec z 0); [lia|].
  assert (Hpow : (2 ^ 53 < 2 ^ 1024)%Z) by (apply Z.pow_lt_mono_r; lia).
  destruct (Z.leb_spec (2 ^ 1024) z); [lia|reflexivity].
Qed.

Lemma number_of_small (z : Z) :
  (0 <= z < 2 ^ 53)%Z -> number_of false z = Int z.
Proof.
  intros H. destruct (Z.eq_dec z 0) as [->|Hz]; [reflexivity|].
  apply (number_of_exact false). lia.
Qed.


Lemma round53_pos (z : Z) : (0 < z)%Z -> (0 < round53 z)%Z.
Proof.
  intros Hpos. unfold round53. cbv zeta.
  destruct (Z.leb_spec (Z.log2 z - 52) 0) as [_|Hex]; [exact Hpos|].
  rewrite Z.shiftl_mul_pow2 by lia.
  assert (Hq : (0 < Z.shiftr z (Z.log2 z - 52))%Z).
  { rewrite Z.shiftr_div_pow2 by lia.
    apply Z.div_str_pos. split; [apply Z.pow_pos_nonneg; lia|].
    apply Z.le_trans with (2 ^ Z.log2 z)%Z; [|now apply Z.log2_spec].
    apply Z.pow_le_mono_r; lia. }
  assert (Hp : (0 < 2 ^ (Z.log2 z - 52))%Z) by (apply Z.pow_pos_nonneg; lia).
  destruct (_ || _); nia.
Qed.

(** After a minus sign the Number is never positive. *)
Lemma number_of_minus (z v : Z) :
  (0 <= z)%Z -> number_of true z = Int v -> (v < 0)%Z.
Proof.
  intros Hz. unfold number_of. cbv zeta.
  destruct (Z.eqb_spec z 0) as [_|Hne]; [discriminate|].
  destruct (2 ^ 1024 <=? round53 z)%Z; [discriminate|].
  intros H. inversion H. pose proof (round53_pos z). lia.
Qed.




Lemma normalizeTemperature_value (temp : jsstring) :
  temp <> [] -> normalizeTemperature temp = Some (parseInt10 (remove_first degree temp)).
Proof.
  unfold normalizeTemperature. destruct temp; simpl; congruence.
Qed.

(** ** Location resolution *)

Lemma lookup_head (k : jsstring) (v : jsval) (rest : list (jsstring * jsval)) :
  lookup k ((k, v) :: rest) = v.
Proof. simpl. now rewrite eqb_refl. Qed.

Lemma first_key_value_head (k : jsstring) (v : jsval) (rest : list (jsstring * jsval)) :
  first_key_value (JObj ((k, v) :: rest)) = Ok v.
Proof. unfold first_key_value. simpl. now rewrite eqb_refl. Qed.

Lemma fetchLocations_envelope (fields : list (jsstring * jsval)) :
  fetchLocations (envelope fields)
  = Js.bind (first_key_value (JObj fields)) (fun entry =>
      Js.bind (get entry (str "data")) (fun payload =>
        Js.bind (get payload (str "location")) project)).
Proof. reflexivity. Qed.

(** C1, as the code has it: the entry read is the one under the first
    key that [Object.keys] lists; whatever other keys the namespace
    object holds, the result, be it a list or an error, is the one of
    the response that has the first key alone. *)
Theorem fetchLocations_reads_first_key
    (k : jsstring) (v : jsval) (rest : list (jsstring * jsval)) :
  fetchLocations (envelope ((k, v) :: rest)) = fetchLocations (envelope [(k, v)])
  /\ fetchLocations (envelope ((k, v) :: rest))
     = Js.bind (get v (str "data")) (fun payload =>
         Js.bind (get payload (str "location")) project).
Proof.
  rewrite !fetchLocations_envelope, !first_key_value_head. split; reflexivity.
Qed.

(** C1, refuted as stated: a response with two keys under the
    namespace is decoded without any error, into the places of the
    first key. *)
Lemma fetchLocations_two_keys :
  List.length Sample.two_keys = 2
  /\ fetchLocations (envelope Sample.two_keys)
     = Ok [mkLocation (JStr (str "a1b2c3")) (str "Gary, Indiana, United States")].
Proof. split; reflexivity. Qed.

(** ** Handles *)

Lemma root_eqb_eq (a b : root) : root_eqb a b = true <-> a = b.
Proof.
  destruct a as [|j], b as [|k]; simpl; split; intros H; try congruence.
  - apply Nat.eqb_eq in H. congruence.
  - inversion H. apply Nat.eqb_refl.
Qed.

Lemma path_eqb_eq (p q : path) : path_eqb p q = true <-> p = q.
Proof.
  revert q; induction p as [|i p IH]; intros [|j q]; simpl; split; intros H;
    try congruence.
  - apply andb_true_iff in H as [Hi Hp]. apply Nat.eqb_eq in Hi. apply IH in Hp. congruence.
  - inversion H; subst. rewrite Nat.eqb_refl. simpl. now apply IH.
Qed.

Lemma handle_eqb_eq (a b : handle) : handle_eqb a b = true <-> a = b.
Proof.
  destruct a as [ra pa], b as [rb pb]. unfold handle_eqb. simpl.
  rewrite andb_true_iff, root_eqb_eq, path_eqb_eq. split.
  - intros [-> ->]. reflexivity.
  - intros H. inversion H. auto.
Qed.

Lemma dead_in_true (hs : selection) (r : root) (p : path) :
  dead_in hs r p = true <-> In (mkHandle r p) hs.
Proof.
  unfold dead_in. rewrite existsb_exists. split.
  - intros (h & Hin & Heq). apply handle_eqb_eq in Heq. now subst.
  - intros Hin. exists (mkHandle r p). split; [assumption|]. now apply handle_eqb_eq.
Qed.

Lemma dead_in_other_root (hs : selection) (r : root) (p : path) :
  (forall h, In h hs -> h_root h <> r) -> dead_in hs r p = false.
Proof.
  intros Hroot. destruct (dead_in hs r p) eqn:E; [|reflexivity].
  apply dead_in_true in E. apply Hroot in E. simpl in E. congruence.
Qed.

Lemma flat_map_ext_in {A B : Type} (f g : A -> list B) (l : list A) :
  (forall a, In a l -> f a = g a) -> flat_map f l = flat_map g l.
Proof.
  induction l as [|a l IH]; simpl; intros H; [reflexivity|].
  rewrite (H a) by auto. f_equal. apply IH. auto.
Qed.

(** ** Pruning *)

Lemma prune_elem (dead : path -> bool) t a cs :
  prune dead (Elem t a cs) = Elem t a (prune_forest dead O cs).
Proof. reflexivity. Qed.

Lemma prune_nothing (n : node) :
  forall dead, (forall p, dead p = false) -> prune dead n = n.
Proof.
  induction n as [t a cs IH| |] using node_ind'; intros dead Hdead; try reflexivity.
  rewrite prune_elem. f_equal.
  generalize O. induction IH as [|c cs Hc _ IHcs]; intros i; simpl; [reflexivity|].
  rewrite Hdead. f_equal; [|apply IHcs].
  apply Hc. intros p. apply Hdead.
Qed.

Lemma prune_forest_nothing (dead : path -> bool) (l : list node) (i : nat) :
  (forall p, dead p = false) -> prune_forest dead i l = l.
Proof.
  intros Hdead. revert i. induction l as [|c l IH]; intros i; simpl; [reflexivity|].
  rewrite Hdead, IH. f_equal. apply prune_nothing. intros p. apply Hdead.
Qed.

(** Pruning exactly the element children of a list of siblings. *)
Lemma prune_forest_elements (d : path -> bool) (cs : list node) (j0 : nat) :
  (forall j c, nth_error cs j = Some c -> d [j0 + j] = is_elem c) ->
  prune_forest d j0 cs = filter (fun c => negb (is_elem c)) cs.
Proof.
  revert j0. induction cs as [|c cs IH]; intros j0 Hd; simpl; [reflexivity|].
  rewrite <- (Nat.add_0_r j0) at 1. rewrite (Hd O c eq_refl).
  assert (Hrest : prune_forest d (S j0) cs = filter (fun c => negb (is_elem c)) cs).
  { apply IH. intros j c' Hj. rewrite <- (Hd (S j) c' Hj). f_equal. f_equal. lia. }
  destruct c; simpl; rewrite Hrest; reflexivity.
Qed.

(** Pruning the element children of every node of a list. *)
Lemma prune_forest_children (D : path -> bool) (l : list node) (i0 : nat) :
  (forall i, D [i] = false) ->
  (forall i c j c', nth_error l i = Some c -> nth_error (children_of c) j = Some c' ->
                    D [i0 + i; j] = is_elem c') ->
  prune_forest D i0 l = List.map without_children l.
Proof.
  intros Htop. revert i0. induction l as [|c l IH]; intros i0 Hkids; simpl; [reflexivity|].
  rewrite Htop. f_equal.
  - destruct c as [t a cs| |]; try reflexivity.
    rewrite prune_elem. simpl. f_equal. apply prune_forest_elements.
    intros j c' Hj. simpl.
    rewrite <- (Hkids O (Elem t a cs) j c' eq_refl Hj). now rewrite Nat.add_0_r.
  - apply IH. intros i c0 j c' Hi Hj.
    rewrite <- (Hkids (S i) c0 j c' Hi Hj). f_equal. f_equal. lia.
Qed.

Lemma prune_detached_app (hs : selection) (a b : list (list node)) (k : nat) :
  prune_detached hs k (a ++ b)
  = prune_detached hs k a ++ prune_detached hs (k + List.length a) b.
Proof.
  revert k. induction a as [|d a IH]; intros k; simpl.
  - now rewrite Nat.add_0_r.
  - rewrite IH. do 3 f_equal. lia.
Qed.

Lemma prune_detached_nothing (hs : selection) (ds : list (list node)) (k : nat) :
  (forall h, In h hs -> forall j, h_root h = Detached j -> k + List.length ds <= j) ->
  prune_detached hs k ds = ds.
Proof.
  revert k. induction ds as [|d ds IH]; intros k Hh; simpl; [reflexivity|].
  f_equal.
  - apply prune_forest_nothing. intros p. apply dead_in_other_root.
    intros h Hin Hr. specialize (Hh h Hin k Hr). simpl in Hh. lia.
  - apply IH. intros h Hin j Hr. specialize (Hh h Hin j Hr). simpl in Hh. lia.
Qed.

(** ** Text *)

Lemma own_text_elem t a cs :
  own_text (Elem t a cs)
  = flat_map (fun c => match c with Text d => d | _ => [] end) cs.
Proof.
  unfold own_text. simpl. induction cs as [|c cs IH]; simpl; [reflexivity|].
  destruct c; simpl; rewrite IH; reflexivity.
Qed.

Lemma elem_indices_spec (cs : list node) (i0 j : nat) :
  In j (elem_indices i0 cs)
  <-> exists c, i0 <= j /\ nth_error cs (j - i0) = Some c /\ is_elem c = true.
Proof.
  revert i0. induction cs as [|c cs IH]; intros i0; simpl.
  - split; [tauto|]. intros (c & _ & H & _). destruct (j - i0); discriminate.
  - rewrite in_app_iff, IH. split.
    + intros [H|(c' & Hle & Hn & He)].
      * destruct (is_elem c) eqn:E; [|contradiction].
        destruct H as [<-|[]]. exists c. rewrite Nat.sub_diag. auto.
      * exists c'. split; [lia|]. replace (j - i0) with (S (j - S i0)) by lia. auto.
    + intros (c' & Hle & Hn & He).
      destruct (Nat.eq_dec j i0) as [->|Hne].
      * rewrite Nat.sub_diag in Hn. simpl in Hn. inversion Hn; subst.
        left. rewrite He. now left.
      * right. exists c'. split; [lia|].
        replace (j - i0) with (S (j - S i0)) in Hn by lia. auto.
Qed.

(** ** [getPercentage] on the store *)

Lemma flat_map_nth_seq {A B : Type} (f : A -> list B) (l : list A) :
  flat_map (fun i => match nth_error l i with
                     | Some n => f n
                     | None => []
                     end) (seq O (List.length l))
  = flat_map f l.
Proof.
  induction l as [|a l IH]; simpl; [reflexivity|].
  f_equal. rewrite <- seq_shift, !flat_map_concat_map, map_map. simpl.
  rewrite <- !flat_map_concat_map. exact IH.
Qed.

Lemma nth_detached_last (ds : list (list node)) (copies : list node) :
  nth (List.length ds) (ds ++ [copies]) [] = copies.
Proof. rewrite app_nth2 by lia. now rewrite Nat.sub_diag. Qed.

Lemma node_at_copy pg ds copies lg (i : nat) :
  node_at (mkStore pg (ds ++ [copies]) lg) (mkHandle (Detached (List.length ds)) [i])
  = nth_error copies i.
Proof.
  unfold node_at, forest_of. simpl h_root. simpl h_path. cbv beta iota.
  simpl detached. rewrite nth_detached_last. simpl.
  destruct (nth_error copies i) as [[| |]|]; reflexivity.
Qed.

Section Copies.

Variables (pg : list node) (ds : list (list node)) (lg : list jsstring).
Variable copies : list node.

Local Abbreviation k := (List.length ds).
Local Abbreviation st1 := (mkStore pg (ds ++ [copies]) lg).
Local Abbreviation copy := (copy_handles (List.length ds) (List.length copies)).
Local Abbreviation kids := (children st1 copy).

Lemma kids_spec (h : handle) :
  In h kids
  <-> exists i c j c',
        nth_error copies i = Some c /\ nth_error (children_of c) j = Some c'
        /\ is_elem c' = true /\ h = mkHandle (Detached k) [i; j].
Proof.
  unfold children. rewrite in_flat_map. split.
  - intros (x & Hx & Hh). unfold copy_handles in Hx.
    apply in_map_iff in Hx as (i & <- & Hi). rewrite node_at_copy in Hh.
    destruct (nth_error copies i) as [[t a cs| |]|] eqn:Ec; try contradiction.
    apply in_map_iff in Hh as (j & <- & Hj).
    apply elem_indices_spec in Hj as (c' & _ & Hn & He). rewrite Nat.sub_0_r in Hn.
    exists i, (Elem t a cs), j, c'. repeat split; auto.
  - intros (i & c & j & c' & Hc & Hj & He & ->).
    exists (mkHandle (Detached k) [i]). split.
    + unfold copy_handles. apply in_map_iff. exists i. split; [reflexivity|].
      apply in_seq. split; [lia|]. simpl. apply nth_error_Some. congruence.
    + rewrite node_at_copy, Hc.
      destruct c as [t a cs| |]; simpl in Hj; try (destruct j; discriminate).
      apply in_map_iff. exists j. split; [reflexivity|].
      apply elem_indices_spec. exists c'. rewrite Nat.sub_0_r. repeat split; auto. lia.
Qed.

Lemma kids_root (h : handle) : In h kids -> h_root h = Detached k.
Proof. intros H. apply kids_spec in H as (i & c & j & c' & _ & _ & _ & ->). reflexivity. Qed.

Lemma prune_copies :
  prune_forest (dead_in kids (Detached k)) O copies = List.map without_children copies.
Proof.
  apply prune_forest_children.
  - intros i. destruct (dead_in kids (Detached k) [i]) eqn:E; [|reflexivity].
    apply dead_in_true, kids_spec in E as (i' & c & j & c' & _ & _ & _ & E). discriminate E.
  - intros i c j c' Hc Hj. simpl.
    destruct (is_elem c') eqn:He.
    + apply dead_in_true, kids_spec. exists i, c, j, c'. auto.
    + destruct (dead_in kids (Detached k) [i; j]) eqn:E; [|reflexivity].
      apply dead_in_true, kids_spec in E as (i' & c2 & j' & c2' & Hc2 & Hj2 & He2 & E).
      inversion E; subst i' j'. congruence.
Qed.

Lemma remove_kids :
  remove kids st1 = (tt, mkStore pg (ds ++ [List.map without_children copies]) lg).
Proof.
  unfold remove. cbn [page detached log]. f_equal. f_equal.
  - apply prune_forest_nothing. intros p. apply dead_in_other_root.
    intros h Hh. rewrite (kids_root _ Hh). discriminate.
  - rewrite prune_detached_app. simpl. f_equal.
    + apply prune_detached_nothing. intros h Hh j Hj.
      rewrite (kids_root _ Hh) in Hj. inversion Hj. simpl. lia.
    + f_equal. apply prune_copies.
Qed.

Lemma text_of_stripped :
  text_of (mkStore pg (ds ++ [List.map without_children copies]) lg) copy
  = flat_map own_text copies.
Proof.
  unfold text_of, copy_handles. rewrite flat_map_concat_map, map_map, <- flat_map_concat_map.
  erewrite flat_map_ext_in.
  2:{ intros i _. rewrite node_at_copy. reflexivity. }
  rewrite <- (length_map without_children copies), flat_map_nth_seq.
  rewrite flat_map_concat_map, map_map, <- flat_map_concat_map. reflexivity.
Qed.

End Copies.

Lemma getPercentage_missing (st : store) (s : selector) (c : option selection) :
  select st s c = [] -> getPercentage s c st = (None, logged st [warning s]).
Proof. intros H. unfold getPercentage, Dom.bind, read. rewrite H. reflexivity. Qed.

Lemma getPercentage_found (st : store) (s : selector) (c : option selection) :
  select st s c <> [] ->
  getPercentage s c st
  = (Some (trim (own_text_of st (select st s c))),
     mkStore (page st)
             (detached st ++ [List.map without_children (nodes_of st (select st s c))])
             (log st)).
Proof.
  intros H. unfold getPercentage, Dom.bind, read.
  destruct (select st s c) as [|h el] eqn:E; [congruence|]. rewrite <- E.
  replace (negb (0 <? List.length (select st s c))%nat) with false by (now rewrite E).
  unfold clone. destruct st as [pg ds lg]. cbn [page detached log].
  rewrite remove_kids, text_of_stripped. reflexivity.
Qed.

(** ** Frame: what a run leaves alone *)

Lemma grows_refl (st : store) : grows st st.
Proof. split; [reflexivity|]. exists []. now rewrite app_nil_r. Qed.

Lemma grows_trans (a b c : store) : grows a b -> grows b c -> grows a c.
Proof.
  intros [Hp1 [l1 Hl1]] [Hp2 [l2 Hl2]]. split; [congruence|].
  exists (l1 ++ l2). now rewrite Hl2, Hl1, app_assoc.
Qed.

Lemma grows_logged (st : store) (lines : list jsstring) : grows st (logged st lines).
Proof. split; [reflexivity|]. now exists lines. Qed.

Lemma logged_logged (st : store) (a b : list jsstring) :
  logged (logged st a) b = logged st (a ++ b).
Proof. unfold logged. simpl. now rewrite app_assoc. Qed.

Lemma bind_run {A B : Type} (m : M A) (k : A -> M B) (st : store) :
  Dom.bind m k st = k (fst (m st)) (snd (m st)).
Proof. unfold Dom.bind. destruct (m st). reflexivity. Qed.

Lemma steady_ret {A : Type} (a : A) : steady (ret a).
Proof. intros st. apply grows_refl. Qed.

Lemma steady_read {A : Type} (f : store -> A) : steady (read f).
Proof. intros st. apply grows_refl. Qed.

Lemma steady_console_error (line : jsstring) : steady (console_error line).
Proof. intros st. apply (grows_logged st [line]). Qed.

Lemma steady_bind {A B : Type} (m : M A) (k : A -> M B) :
  steady m -> (forall a, steady (k a)) -> steady (Dom.bind m k).
Proof.
  intros Hm Hk st. rewrite bind_run. eapply grows_trans; [apply Hm|apply Hk].
Qed.

Lemma steady_mapM {A B : Type} (f : A -> M B) (l : list A) :
  (forall a, steady (f a)) -> steady (mapM f l).
Proof.
  intros Hf. induction l as [|a l IH]; simpl.
  - apply steady_ret.
  - apply steady_bind; [apply Hf|]. intros b.
    apply steady_bind; [apply IH|]. intros bs. apply steady_ret.
Qed.

Lemma length_mapM {A B : Type} (f : A -> M B) (l : list A) (st : store) :
  List.length (fst (mapM f l st)) = List.length l.
Proof.
  revert st. induction l as [|a l IH]; intros st; simpl; [reflexivity|].
  rewrite bind_run, bind_run. simpl. now rewrite IH.
Qed.

(** ** Lookups *)

(** The selectors print as the source writes them. *)
Lemma selectors_as_written :
  show SELECTORS.followingDays
  = str "[data-testid=" ++ quote ++ str "DailyWeatherModule" ++ quote
    ++ str "] [data-testid=" ++ quote ++ str "WeatherTable" ++ quote ++ str "] > li"
  /\ show SELECTORS.today
     = str "[id^=" ++ quote ++ str "WxuTodayWeatherCard-main-" ++ quote ++ str "]"
  /\ show SELECTORS.temperature
     = str "[data-testid=" ++ quote ++ str "TemperatureValue" ++ quote ++ str "]"
  /\ show SELECTORS.chanceOfRain
     = str "[class*=" ++ quote ++ str "Column--precip--" ++ quote ++ str "]"
  /\ show SELECTORS.h3_span = str "h3 span"
  /\ show (SELECTORS.segment_row SELECTORS.today 2)
     = str "[id^=" ++ quote ++ str "WxuTodayWeatherCard-main-" ++ quote
       ++ str "] ul > li:nth-child(2)".
Proof. repeat split. Qed.

Lemma getText_missing (st : store) (s : selector) (c : option selection) :
  select st s c = [] -> getText s c st = (None, logged st [warning s]).
Proof. intros H. unfold getText, Dom.bind, read. rewrite H. reflexivity. Qed.

Lemma getText_found (st : store) (s : selector) (c : option selection) :
  select st s c <> [] ->
  getText s c st = (or_null (trim (text_of st (select st s c))), st).
Proof.
  intros H. unfold getText, Dom.bind, read.
  destruct (select st s c) eqn:E; [congruence|]. reflexivity.
Qed.

Lemma getTemp_missing (st : store) (s : selector) (c : option selection) :
  select st s c = [] -> getTemp s c st = (None, logged st [warning s]).
Proof. intros H. unfold getTemp. rewrite bind_run, getText_missing by assumption. reflexivity. Qed.

Lemma getTemp_found (st : store) (s : selector) (c : option selection) :
  select st s c <> [] ->
  getTemp s c st
  = (normalizeTemperature (trim (text_of st (select st s c))), st).
Proof.
  intros H. unfold getTemp. rewrite bind_run, getText_found by assumption. simpl.
  unfold ret. f_equal. destruct (trim (text_of st (select st s c))); reflexivity.
Qed.

Lemma cli_getText_missing (st : store) (s : selector) (c : option selection) :
  select st s c = [] -> Cli.getText s c st = (None, logged st [warning s]).
Proof. intros H. unfold Cli.getText, Dom.bind, read. rewrite H. reflexivity. Qed.

Lemma cli_getText_found (st : store) (s : selector) (c : option selection) :
  select st s c <> [] ->
  Cli.getText s c st = (Some (trim (text_of st (select st s c))), st).
Proof.
  intros H. unfold Cli.getText, Dom.bind, read.
  destruct (select st s c) eqn:E; [congruence|]. reflexivity.
Qed.

Lemma steady_getText s c : steady (getText s c).
Proof.
  intros st. destruct (select st s c) eqn:E.
  - rewrite getText_missing by assumption. apply grows_logged.
  - rewrite getText_found by congruence. apply grows_refl.
Qed.

Lemma steady_cli_getText s c : steady (Cli.getText s c).
Proof.
  intros st. destruct (select st s c) eqn:E.
  - rewrite cli_getText_missing by assumption. apply grows_logged.
  - rewrite cli_getText_found by congruence. apply grows_refl.
Qed.

Lemma steady_getTemp s c : steady (getTemp s c).
Proof.
  intros st. destruct (select st s c) eqn:E.
  - rewrite getTemp_missing by assumption. apply grows_logged.
  - rewrite getTemp_found by congruence. apply grows_refl.
Qed.

Lemma steady_getPercentage s c : steady (getPercentage s c).
Proof.
  intros st. destruct (select st s c) eqn:E.
  - rewrite getPercentage_missing by assumption. apply grows_logged.
  - rewrite getPercentage_found by congruence. rewrite E.
    split; [reflexivity|]. exists []. simpl. now rewrite app_nil_r.
Qed.

Create HintDb steady.
#[local] Hint Resolve steady_ret steady_read steady_console_error steady_getText
  steady_getTemp steady_getPercentage steady_cli_getText : steady.

Ltac steady_steps :=
  repeat first
    [ solve [auto with steady]
    | apply steady_mapM; intros ?
    | apply steady_bind; [|intros ?] ].

Lemma steady_getSegmentData n : steady (getSegmentData n).
Proof. unfold getSegmentData. steady_steps. Qed.

Lemma steady_outlookRow el : steady (outlookRow el).
Proof. unfold outlookRow, first_temperature, last_temperature. steady_steps. Qed.

Lemma steady_cli_outlookRow el : steady (Cli.outlookRow el).
Proof. unfold Cli.outlookRow, Cli.temperature_of, Cli.getPercentage. steady_steps. Qed.

#[local] Hint Resolve steady_outlookRow steady_cli_outlookRow : steady.

Lemma steady_nextDays : steady nextDays.
Proof. unfold nextDays. steady_steps. Qed.

Lemma steady_cli_nextDays : steady Cli.nextDays.
Proof. unfold Cli.nextDays. steady_steps. Qed.

#[local] Hint Resolve steady_getSegmentData steady_nextDays : steady.

Lemma steady_todayWeather : steady todayWeather.
Proof. unfold todayWeather, first_temperature, last_temperature. steady_steps. Qed.

(** The page a run works on is the page that was loaded. *)
Lemma fetchWeather_run (markup : list node) :
  fetchWeather markup
  = ((fst (todayWeather (load markup)),
      fst (nextDays (snd (todayWeather (load markup))))),
     snd (nextDays (snd (todayWeather (load markup))))).
Proof.
  unfold fetchWeather. rewrite !bind_run. reflexivity.
Qed.

Lemma fetchWeather_page (markup : list node) :
  page (snd (fetchWeather markup)) = markup.
Proof.
  rewrite fetchWeather_run. simpl.
  destruct (steady_nextDays (snd (todayWeather (load markup)))) as [-> _].
  destruct (steady_todayWeather (load markup)) as [-> _]. reflexivity.
Qed.

(** ** Selections that lie in the page *)

Lemma in_firstn {A : Type} (n : nat) (l : list A) (x : A) : In x (firstn n l) -> In x l.
Proof. intros H. rewrite <- (firstn_skipn n l). apply in_or_app. now left. Qed.

Lemma in_skipn {A : Type} (n : nat) (l : list A) (x : A) : In x (skipn n l) -> In x l.
Proof. intros H. rewrite <- (firstn_skipn n l). apply in_or_app. now right. Qed.

Lemma outermost_from_incl (seen hs all : selection) (h : handle) :
  In h (outermost_from seen hs all) -> In h hs.
Proof.
  revert seen. induction hs as [|x hs IH]; intros seen; simpl; [tauto|].
  match goal with |- context [if ?b then _ else _] => destruct b end.
  - intros H. right. eapply IH, H.
  - intros [->|H]; [now left|]. right. eapply IH, H.
Qed.

Lemma outermost_incl (hs : selection) (h : handle) : In h (outermost hs) -> In h hs.
Proof. apply outermost_from_incl. Qed.

Lemma on_page_sub (hs hs' : selection) :
  (forall h, In h hs' -> In h hs) -> on_page hs -> on_page hs'.
Proof.
  unfold on_page. rewrite !Forall_forall. intros Hsub H h Hin. apply H, Hsub, Hin.
Qed.



Lemma on_page_slice_from (a : nat) (hs : selection) : on_page hs -> on_page (slice_from a hs).
Proof. apply on_page_sub. intros h. apply in_skipn. Qed.

Lemma on_page_slice (a b : nat) (hs : selection) : on_page hs -> on_page (slice a b hs).
Proof. apply on_page_sub. intros h H. eapply in_skipn, in_firstn, H. Qed.

Lemma select_on_page (st : store) (s : selector) (c : option selection) :
  context_on_page c -> on_page (select st s c).
Proof.
  intros Hc. unfold on_page. apply Forall_forall. intros h Hin.
  destruct c as [hs|]; simpl in Hin.
  - apply in_flat_map in Hin as (x & Hx & Hin).
    apply outermost_incl in Hx. simpl in Hc. unfold on_page in Hc.
    rewrite Forall_forall in Hc. specialize (Hc x Hx).
    destruct (node_at st x) as [[t a cs| |]|]; try contradiction.
    apply in_map_iff in Hin as (p & <- & _). exact Hc.
  - apply in_map_iff in Hin as (p & <- & _). reflexivity.
Qed.

Lemma node_at_page_only (st st' : store) (h : handle) :
  page st = page st' -> h_root h = Page -> node_at st h = node_at st' h.
Proof. intros Hp Hr. unfold node_at, forest_of. rewrite Hr. now rewrite Hp. Qed.

Lemma select_page_only (st st' : store) (s : selector) (c : option selection) :
  page st = page st' -> context_on_page c -> select st s c = select st' s c.
Proof.
  intros Hp Hc. destruct c as [hs|]; simpl.
  - apply flat_map_ext_in. intros h Hin. apply outermost_incl in Hin.
    simpl in Hc. unfold on_page in Hc. rewrite Forall_forall in Hc.
    now rewrite (node_at_page_only st st' h Hp (Hc h Hin)).
  - now rewrite Hp.
Qed.

Lemma text_of_page_only (st st' : store) (hs : selection) :
  page st = page st' -> on_page hs -> text_of st hs = text_of st' hs.
Proof.
  intros Hp Hc. unfold text_of. apply flat_map_ext_in. intros h Hin.
  unfold on_page in Hc. rewrite Forall_forall in Hc.
  now rewrite (node_at_page_only st st' h Hp (Hc h Hin)).
Qed.

Lemma nodes_of_page_only (st st' : store) (hs : selection) :
  page st = page st' -> on_page hs -> nodes_of st hs = nodes_of st' hs.
Proof.
  intros Hp Hc. unfold nodes_of. apply flat_map_ext_in. intros h Hin.
  unfold on_page in Hc. rewrite Forall_forall in Hc.
  now rewrite (node_at_page_only st st' h Hp (Hc h Hin)).
Qed.

Lemma is_page_only (st st' : store) (s : selector) (hs : selection) :
  page st = page st' -> on_page hs -> is_ st s hs = is_ st' s hs.
Proof.
  intros Hp Hc. unfold is_. induction Hc as [|h hs Hh _ IH]; simpl; [reflexivity|].
  rewrite IH. unfold forest_of. rewrite Hh. now rewrite Hp.
Qed.

(** ** A selector needs its leftmost compound *)

Lemma find_node_elem (s : selector) (ups : list einfo) (pos : nat) t a cs :
  find_node s ups pos (Elem t a cs)
  = (if matches s (mkInfo t a pos) ups then [[]] else [])
    ++ find_forest s (mkInfo t a pos :: ups) O O cs.
Proof.
  simpl. f_equal. generalize O at 1 3. generalize O.
  induction cs as [|c cs IH]; intros b i; simpl; [reflexivity|]. now rewrite IH.
Qed.

Lemma some_ancestor_true (f : einfo -> list einfo -> bool) (ups : list einfo) :
  some_ancestor f ups = true ->
  exists p r, f p r = true /\ In p ups /\ (forall x, In x r -> In x ups).
Proof.
  induction ups as [|p ups IH]; simpl; [discriminate|].
  intros H. apply orb_true_iff in H as [H|H].
  - exists p, ups. auto.
  - destruct (IH H) as (q & r & Hf & Hq & Hr). exists q, r. auto.
Qed.

Lemma matches_anchor (s : selector) :
  forall e ups, matches s e ups = true ->
  exists p, In p (e :: ups) /\ matches_compound (leftmost s) p = true.
Proof.
  induction s as [c|l IH c|l IH c]; intros e ups H; simpl in H.
  - exists e. simpl. auto.
  - apply andb_true_iff in H as [_ H].
    apply some_ancestor_true in H as (p & r & Hm & Hp & Hr).
    destruct (IH p r Hm) as (q & Hq & Hc). exists q. split; [|exact Hc].
    simpl. destruct Hq as [<-|Hq]; auto.
  - apply andb_true_iff in H as [_ H]. destruct ups as [|p r]; [discriminate|].
    destruct (IH p r H) as (q & Hq & Hc). exists q. simpl. simpl in Hq. tauto.
Qed.

Lemma find_node_anchor (s : selector) (n : node) :
  forall ups0 ups pos,
    Forall (fun p => matches_compound (leftmost s) p = false) ups ->
    find_node (Compound (leftmost s)) ups0 pos n = [] ->
    find_node s ups pos n = [].
Proof.
  induction n as [t a cs IH| |] using node_ind'; intros ups0 ups pos Hups H;
    try reflexivity.
  rewrite find_node_elem in *. apply app_eq_nil in H as [Hself Hkids].
  assert (He : matches_compound (leftmost s) (mkInfo t a pos) = false).
  { simpl in Hself. destruct (matches_compound (leftmost s) (mkInfo t a pos));
      [discriminate|reflexivity]. }
  assert (Hno : matches s (mkInfo t a pos) ups = false).
  { destruct (matches s (mkInfo t a pos) ups) eqn:E; [|reflexivity].
    apply matches_anchor in E as (p & [<-|Hp] & Hc); [congruence|].
    rewrite Forall_forall in Hups. rewrite (Hups p Hp) in Hc. discriminate. }
  rewrite Hno. simpl.
  assert (Hups' : Forall (fun p => matches_compound (leftmost s) p = false)
                         (mkInfo t a pos :: ups)) by (constructor; assumption).
  revert Hkids. generalize (mkInfo t a pos :: ups0) (mkInfo t a pos :: ups) Hups'.
  generalize O at 1 3. generalize O.
  induction IH as [|c cs Hc _ IHcs]; intros b i u0 u Hu Hk; simpl; [reflexivity|].
  simpl in Hk. apply app_eq_nil in Hk as [Hk1 Hk2]. apply map_eq_nil in Hk1.
  rewrite (Hc u0 u _ Hu Hk1). simpl. eapply IHcs; eauto.
Qed.

Lemma find_forest_anchor (s : selector) (l : list node) :
  forall ups0 i b,
    find_forest (Compound (leftmost s)) ups0 i b l = [] -> find_forest s [] i b l = [].
Proof.
  induction l as [|c l IH]; intros ups0 i b H; simpl; [reflexivity|].
  simpl in H. apply app_eq_nil in H as [H1 H2]. apply map_eq_nil in H1.
  rewrite (@find_node_anchor s c ups0 [] _ (Forall_nil _) H1). simpl. eapply IH, H2.
Qed.

Lemma select_anchor_absent (st : store) (s : selector) :
  select st (Compound (leftmost s)) None = [] -> select st s None = [].
Proof.
  unfold select. intros H. apply map_eq_nil in H.
  now rewrite (@find_forest_anchor s _ _ _ _ H).
Qed.

(** ** The steps of a run *)

Ltac run := repeat (rewrite bind_run; cbv beta).

Lemma steady_first_temperature card : steady (first_temperature card).
Proof. apply steady_read. Qed.

Lemma steady_last_temperature card : steady (last_temperature card).
Proof. apply steady_read. Qed.

#[local] Hint Resolve steady_first_temperature steady_last_temperature : steady.

Ltac grows_chain :=
  lazymatch goal with
  | |- grows ?a ?a => apply grows_refl
  | |- grows ?a (snd (?m ?s)) =>
      apply (@grows_trans a s);
      [ grows_chain
      | let H := fresh in assert (H : steady m) by auto with steady; apply H ]
  end.

Lemma getSegmentData_run (n : nat) (st : store) :
  let segmentEl := select st (SELECTORS.segment_row SELECTORS.today n) None in
  let r1 := getTemp SELECTORS.temperature (Some segmentEl) st in
  let r2 := getText SELECTORS.condition (Some segmentEl) (snd r1) in
  let r3 := getPercentage SELECTORS.chanceOfRain (Some segmentEl) (snd r2) in
  getSegmentData n st
  = (Segment.mk (fst r1) (fst r2) (fst r3)
                (is_ (snd r3) SELECTORS.periodOfDay segmentEl),
     snd r3).
Proof. unfold getSegmentData. run. reflexivity. Qed.

Lemma getSegmentData_active (n : nat) (st : store) :
  Segment.active (fst (getSegmentData n st)) = row_active (page st) n.
Proof.
  rewrite getSegmentData_run. cbv zeta. cbn [fst snd Segment.active]. unfold row_active.
  change (select (load (page st)) (SELECTORS.segment_row SELECTORS.today n) None)
    with (select st (SELECTORS.segment_row SELECTORS.today n) None).
  apply is_page_only.
  - match goal with |- page ?s = _ => assert (G : grows st s) by grows_chain end.
    destruct G as [-> _]. reflexivity.
  - apply select_on_page. exact I.
Qed.

Lemma getSegmentData_absent (n : nat) (st : store) :
  select st SELECTORS.today None = [] ->
  getSegmentData n st
  = (Segment.mk None None None false,
     logged st [warning SELECTORS.temperature; warning SELECTORS.condition;
                warning SELECTORS.chanceOfRain]).
Proof.
  intros H. rewrite getSegmentData_run. cbv zeta.
  rewrite (@select_anchor_absent st (SELECTORS.segment_row SELECTORS.today n) H).
  rewrite getTemp_missing by reflexivity. cbn [fst snd].
  rewrite getText_missing by reflexivity. cbn [fst snd].
  rewrite getPercentage_missing by reflexivity. cbn [fst snd].
  rewrite !logged_logged. reflexivity.
Qed.

Lemma todayWeather_run (st : store) :
  let card := select st SELECTORS.todayDetails None in
  let r1 := getTemp SELECTORS.currentTemp None st in
  let r2 := getTemp SELECTORS.temperature (Some card) (snd r1) in
  let r3 := getText SELECTORS.currentCondition None (snd r2) in
  let r4 := getText SELECTORS.time None (snd r3) in
  let r5 := getText SELECTORS.uvIndex (Some card) (snd r4) in
  let r6 := getText SELECTORS.wind (Some card) (snd r5) in
  let r7 := getPercentage SELECTORS.percentage (Some card) (snd r6) in
  let r8 := first_temperature card (snd r7) in
  let r9 := last_temperature card (snd r8) in
  let m := getSegmentData 1 (snd r9) in
  let a := getSegmentData 2 (snd m) in
  let e := getSegmentData 3 (snd a) in
  let o := getSegmentData 4 (snd e) in
  todayWeather st
  = (DayWeather.mk (fst r8) (fst r9)
       (as_of (fst r4)) (fst r1) (fst r2) (fst r3) (fst r7) (fst r5) (fst r6)
       (Segment.rain (fst m)) (Segment.condition (fst m)) (Segment.temp (fst m))
       (Segment.rain (fst a)) (Segment.condition (fst a)) (Segment.temp (fst a))
       (Segment.rain (fst e)) (Segment.condition (fst e)) (Segment.temp (fst e))
       (Segment.rain (fst o)) (Segment.condition (fst o)) (Segment.temp (fst o))
       (dayStage (fst m) (fst a) (fst e) (fst o)),
     snd o).
Proof. unfold todayWeather. run. reflexivity. Qed.

Ltac same_page st :=
  repeat match goal with
         | |- context [page ?s] =>
             lazymatch s with
             | st => fail
             | _ => let G := fresh in
                    assert (G : grows st s) by grows_chain;
                    destruct G as [-> _]
             end
         end.

Lemma todayWeather_stage (st : store) :
  DayWeather.currentDayStage (fst (todayWeather st))
  = first_flagged [(str "Morning", row_active (page st) 1);
                   (str "Afternoon", row_active (page st) 2);
                   (str "Evening", row_active (page st) 3);
                   (str "Overnight", row_active (page st) 4)].
Proof.
  rewrite todayWeather_run. cbv zeta. cbn [fst DayWeather.currentDayStage].
  unfold dayStage. rewrite !getSegmentData_active. same_page st.
  unfold first_flagged. cbn [find snd].
  destruct (row_active (page st) 1), (row_active (page st) 2),
    (row_active (page st) 3), (row_active (page st) 4); reflexivity.
Qed.

(** ** The active segment *)

Lemma today_of_run (markup : list node) :
  today_of markup = fst (todayWeather (load markup)).
Proof. unfold today_of. now rewrite fetchWeather_run. Qed.

Lemma next_of_run (markup : list node) :
  next_of markup = fst (nextDays (snd (todayWeather (load markup)))).
Proof. unfold next_of. now rewrite fetchWeather_run. Qed.

(** C3: [currentDayStage] is the label of the first row, in the order
    morning, afternoon, evening, overnight, whose element matches the
    active-period selector, and [null] when no row does; rows flagged
    false, true, true, false give the afternoon.  The code spells the
    labels with a capital. *)
Theorem currentDayStage_first_active (markup : list node) :
  DayWeather.currentDayStage (today_of markup)
  = first_flagged [(str "Morning", row_active markup 1);
                   (str "Afternoon", row_active markup 2);
                   (str "Evening", row_active markup 3);
                   (str "Overnight", row_active markup 4)]
  /\ (forall t1 c1 r1 t2 c2 r2 t3 c3 r3 t4 c4 r4,
        dayStage (Segment.mk t1 c1 r1 false) (Segment.mk t2 c2 r2 true)
                 (Segment.mk t3 c3 r3 true) (Segment.mk t4 c4 r4 false)
        = Some (str "Afternoon"))
  /\ (forall t1 c1 r1 t2 c2 r2 t3 c3 r3 t4 c4 r4,
        dayStage (Segment.mk t1 c1 r1 false) (Segment.mk t2 c2 r2 false)
                 (Segment.mk t3 c3 r3 false) (Segment.mk t4 c4 r4 false)
        = None)
  /\ List.map (row_active Sample.markup) [1; 2; 3; 4] = [false; true; true; false]
  /\ DayWeather.currentDayStage (today_of Sample.markup) = Some (str "Afternoon").
Proof.
  split; [|split; [|split; [|split]]].
  - rewrite today_of_run. apply todayWeather_stage.
  - reflexivity.
  - reflexivity.
  - vm_compute. reflexivity.
  - vm_compute. reflexivity.
Qed.

Ltac label_case :=
  let H := fresh "H" in
  intros H;
  repeat match goal with
         | G : _ /\ _ |- _ => destruct G
         end;
  first
    [ discriminate
    | exfalso; vm_compute in H; discriminate H
    | repeat split; reflexivity ].

(** C4, as the code has it: the returned record carries no flag per
    segment, only [currentDayStage]; it names one row at most, that
    row matches the active-period selector, and no row before it
    does. *)
Theorem currentDayStage_names_one_row (markup : list node) :
  let stage := DayWeather.currentDayStage (today_of markup) in
  let flag := row_active markup in
  (stage = None
   <-> flag 1 = false /\ flag 2 = false /\ flag 3 = false /\ flag 4 = false)
  /\ (stage = Some (str "Morning") <-> flag 1 = true)
  /\ (stage = Some (str "Afternoon") <-> flag 1 = false /\ flag 2 = true)
  /\ (stage = Some (str "Evening")
      <-> flag 1 = false /\ flag 2 = false /\ flag 3 = true)
  /\ (stage = Some (str "Overnight")
      <-> flag 1 = false /\ flag 2 = false /\ flag 3 = false /\ flag 4 = true).
Proof.
  cbv zeta. rewrite today_of_run, todayWeather_stage. cbn [page load].
  unfold first_flagged. cbn [find snd].
  destruct (row_active markup 1), (row_active markup 2),
    (row_active markup 3), (row_active markup 4);
    cbn [option_map fst];
    (split; [|split; [|split; [|split]]]); split; label_case.
Qed.

(** C4, refuted as stated: on the sample page the rows of the
    afternoon and of the evening both come out of [getSegmentData]
    with their flag set. *)
Lemma two_active_segments :
  Segment.active (fst (getSegmentData 2 (load Sample.markup))) = true
  /\ Segment.active (fst (getSegmentData 3 (load Sample.markup))) = true.
Proof. split; vm_compute; reflexivity. Qed.

(** ** Leaf text of a percentage cell *)

(** [remove] does change the tree it is applied to: without the copy
    the page would lose the children of the cell. *)
Lemma remove_on_page_changes_it :
  let st := load Sample.dry in
  let el := select st SELECTORS.chanceOfRain None in
  page (snd (remove (children st el) st)) <> page st.
Proof. vm_compute. discriminate. Qed.

(** C6: when the selector matches, the value is the trimmed text that
    the matched nodes keep once their element children are removed,
    that is their own text without the white space at its two ends;
    the removal happens in a fresh detached copy, and the page, the
    earlier detached documents and the log are as before.  A node
    made of an element followed by the text [20%] yields [20%]. *)
Theorem getPercentage_reads_copy (st : store) (selector : selector)
    (context : option selection) :
  select st selector context <> [] ->
  let el := select st selector context in
  let result := getPercentage selector context st in
  fst result = Some (trim (own_text_of st el))
  /\ (exists value pre post,
        fst result = Some value
        /\ own_text_of st el = pre ++ value ++ post
        /\ all_space pre = true /\ all_space post = true
        /\ edge_clean value = true)
  /\ page (snd result) = page st
  /\ detached (snd result)
     = detached st ++ [List.map without_children (nodes_of st el)]
  /\ log (snd result) = log st
  /\ (forall t a cs,
        own_text (Elem t a cs)
        = flat_map (fun c => match c with Text d => d | _ => [] end) cs)
  /\ (forall t a child,
        is_elem child = true ->
        own_text (Elem t a [child; Text (str "20%")]) = str "20%").
Proof.
  intros H. cbv zeta. rewrite getPercentage_found by assumption.
  cbn [fst snd page detached log].
  split; [reflexivity|]. split.
  { destruct (trim_spec (own_text_of st (select st selector context)))
      as (pre & post & Hs & Hpre & Hpost & Hc).
    exists (trim (own_text_of st (select st selector context))), pre, post.
    repeat split; assumption. }
  repeat split; try reflexivity.
  - intros. apply own_text_elem.
  - intros t a child Hc. rewrite own_text_elem.
    destruct child; [reflexivity|discriminate|discriminate].
Qed.

Lemma getPercentage_reads_copy_witness :
  let st := load [Sample.precip "  20% "] in
  let el := select st SELECTORS.chanceOfRain None in
  let result := getPercentage SELECTORS.chanceOfRain None st in
  el <> []
  /\ own_text_of st el = str "  20% "
  /\ fst result = Some (str "20%")
  /\ page (snd result) = [Sample.precip "  20% "].
Proof.
  cbv zeta.
  assert (H : select (load [Sample.precip "  20% "]) SELECTORS.chanceOfRain None <> [])
    by (vm_compute; discriminate).
  destruct (getPercentage_reads_copy (load [Sample.precip "  20% "])
              SELECTORS.chanceOfRain None H) as (Hv & _ & Hp & _).
  split; [exact H|]. split; [vm_compute; reflexivity|].
  split; [rewrite Hv; vm_compute; reflexivity|exact Hp].
Defined.

(** C10: a selector that matches, on nodes whose own text is empty or
    white space, gives the empty string; [null] is the value exactly
    when the selector matches nothing.  The command line variant uses
    the same function. *)
Theorem getPercentage_empty_string (st : store) (selector : selector)
    (context : option selection) :
  select st selector context <> [] ->
  all_space (own_text_of st (select st selector context)) = true ->
  fst (getPercentage selector context st) = Some []
  /\ fst (Cli.getPercentage selector context st) = Some []
  /\ (forall st' s' c',
        fst (getPercentage s' c' st') = None <-> select st' s' c' = []).
Proof.
  intros Hsel Hsp.
  assert (Hv : fst (getPercentage selector context st) = Some []).
  { rewrite getPercentage_found by assumption. cbn [fst].
    now rewrite trim_all_space. }
  repeat split; try exact Hv.
  - intros Hnone. destruct (select st' s' c') eqn:E; [reflexivity|].
    rewrite getPercentage_found in Hnone by congruence. discriminate.
  - intros Hnil. now rewrite getPercentage_missing.
Qed.

Lemma getPercentage_empty_string_witness :
  select (load Sample.dry) SELECTORS.chanceOfRain None <> []
  /\ all_space (own_text_of (load Sample.dry)
                  (select (load Sample.dry) SELECTORS.chanceOfRain None)) = true
  /\ fst (getPercentage SELECTORS.chanceOfRain None (load Sample.dry)) = Some [].
Proof.
  assert (H1 : select (load Sample.dry) SELECTORS.chanceOfRain None <> [])
    by (vm_compute; discriminate).
  assert (H2 : all_space (own_text_of (load Sample.dry)
                  (select (load Sample.dry) SELECTORS.chanceOfRain None)) = true)
    by (vm_compute; reflexivity).
  split; [exact H1|]. split; [exact H2|].
  exact (proj1 (getPercentage_empty_string (load Sample.dry) SELECTORS.chanceOfRain
                  None H1 H2)).
Defined.

(** ** Lookups that match nothing *)

Lemma nextDays_run (st : store) :
  nextDays st = mapM outlookRow (slice_from 1 (select st SELECTORS.followingDays None)) st.
Proof. unfold nextDays. run. reflexivity. Qed.

Lemma cli_nextDays_run (st : store) :
  Cli.nextDays st
  = mapM Cli.outlookRow (slice 1 3 (select st SELECTORS.followingDays None)) st.
Proof. unfold Cli.nextDays. run. reflexivity. Qed.

(** C7, as the code has it: a leaf lookup ([getText], [getTemp],
    [getPercentage]) whose selector matches nothing gives [null] and
    writes one warning that names the selector.  The lookups of a
    container or of the row collection write nothing: an empty row
    collection gives the empty list, and the high and the low of a
    card that is not there are [null], with the log as it was. *)
Theorem lookup_that_matches_nothing (st : store) (selector : selector)
    (context : option selection) :
  select st selector context = [] ->
  getText selector context st = (None, logged st [warning selector])
  /\ getTemp selector context st = (None, logged st [warning selector])
  /\ getPercentage selector context st = (None, logged st [warning selector])
  /\ warning selector = str "Warning: Selector not found: " ++ show selector
  /\ (forall st', select st' SELECTORS.followingDays None = [] ->
                  nextDays st' = ([], st'))
  /\ (forall st', first_temperature [] st' = (None, st')
                  /\ last_temperature [] st' = (None, st')).
Proof.
  intros H. repeat split.
  - now apply getText_missing.
  - now apply getTemp_missing.
  - now apply getPercentage_missing.
  - intros st' Hrows. rewrite nextDays_run, Hrows. reflexivity.
Qed.

Lemma lookup_that_matches_nothing_witness :
  let st := load Sample.blank in
  select st SELECTORS.temperature None = []
  /\ getText SELECTORS.temperature None st
     = (None, logged st [warning SELECTORS.temperature])
  /\ getPercentage SELECTORS.temperature None st
     = (None, logged st [warning SELECTORS.temperature]).
Proof.
  cbv zeta.
  assert (H : select (load Sample.blank) SELECTORS.temperature None = [])
    by (vm_compute; reflexivity).
  destruct (lookup_that_matches_nothing (load Sample.blank) SELECTORS.temperature None H)
    as (H1 & _ & H3 & _).
  split; [exact H|]. split; [exact H1|exact H3].
Defined.

(** C7, refuted as stated: on a page with none of the modules the
    lookup of the details container and the lookup of the row
    collection match nothing, and neither writes a warning; the only
    warnings of the run are those of the leaf lookups. *)
Lemma container_lookups_are_silent :
  let st := load Sample.blank in
  select st SELECTORS.todayDetails None = []
  /\ select st SELECTORS.followingDays None = []
  /\ log (snd (nextDays st)) = []
  /\ existsb (JsString.eqb (warning SELECTORS.todayDetails))
             (log (snd (fetchWeather Sample.blank))) = false
  /\ existsb (JsString.eqb (warning SELECTORS.followingDays))
             (log (snd (fetchWeather Sample.blank))) = false.
Proof. cbv zeta. repeat split; vm_compute; reflexivity. Qed.

(** ** A page without the today card *)

Lemma absent_on_same_page (st st' : store) (s : selector) :
  page st' = page st -> select st s None = [] -> select st' s None = [].
Proof. intros Hp H. now rewrite (select_page_only st' st s None Hp I). Qed.

Lemma todayWeather_without_card (st : store) :
  select st SELECTORS.today None = [] ->
  exists s9,
    grows st s9
    /\ snd (todayWeather st)
       = logged s9 (segment_warnings ++ segment_warnings
                    ++ segment_warnings ++ segment_warnings)
    /\ (let t := fst (todayWeather st) in
        DayWeather.morningTemperature t = None
        /\ DayWeather.morningCondition t = None
        /\ DayWeather.morningChanceOfRain t = None
        /\ DayWeather.afternoonTemperature t = None
        /\ DayWeather.afternoonCondition t = None
        /\ DayWeather.afternoonChanceOfRain t = None
        /\ DayWeather.eveningTemperature t = None
        /\ DayWeather.eveningCondition t = None
        /\ DayWeather.eveningChanceOfRain t = None
        /\ DayWeather.overnightTemperature t = None
        /\ DayWeather.overnightCondition t = None
        /\ DayWeather.overnightChanceOfRain t = None
        /\ DayWeather.currentDayStage t = None).
Proof.
  intros H. rewrite todayWeather_run. cbv zeta.
  match goal with
  | |- context [getSegmentData 1 ?s] => set (s9 := s)
  end.
  assert (G : grows st s9) by (unfold s9; grows_chain).
  assert (H9 : select s9 SELECTORS.today None = [])
    by (apply (absent_on_same_page st); [apply G|exact H]).
  exists s9. split; [exact G|].
  rewrite (getSegmentData_absent 1 s9 H9). cbn [fst snd].
  rewrite (getSegmentData_absent 2) by (apply (absent_on_same_page s9); [reflexivity|exact H9]).
  cbn [fst snd].
  rewrite (getSegmentData_absent 3) by (apply (absent_on_same_page s9); [reflexivity|exact H9]).
  cbn [fst snd].
  rewrite (getSegmentData_absent 4) by (apply (absent_on_same_page s9); [reflexivity|exact H9]).
  cbn [fst snd]. fold segment_warnings. rewrite !logged_logged.
  split; [reflexivity|]. repeat split.
Qed.

(** C8, as the code has it: without the today card every field of
    the four segments is [null], [currentDayStage] is [null], and each
    segment writes its three warnings, one per field, so that the log
    of the run holds the twelve in a row; the other fields of the
    record are read from elsewhere in the page and are not concerned.
    Without the rows of the daily table the outlook is empty, be the
    today card there or not. *)
Theorem today_card_absent (markup : list node) :
  (select (load markup) SELECTORS.today None = [] ->
   (let t := today_of markup in
    DayWeather.morningTemperature t = None
    /\ DayWeather.morningCondition t = None
    /\ DayWeather.morningChanceOfRain t = None
    /\ DayWeather.afternoonTemperature t = None
    /\ DayWeather.afternoonCondition t = None
    /\ DayWeather.afternoonChanceOfRain t = None
    /\ DayWeather.eveningTemperature t = None
    /\ DayWeather.eveningCondition t = None
    /\ DayWeather.eveningChanceOfRain t = None
    /\ DayWeather.overnightTemperature t = None
    /\ DayWeather.overnightCondition t = None
    /\ DayWeather.overnightChanceOfRain t = None
    /\ DayWeather.currentDayStage t = None)
   /\ (forall n st, page st = markup ->
         getSegmentData n st
         = (Segment.mk None None None false, logged st segment_warnings))
   /\ (exists pre post,
         log (snd (fetchWeather markup))
         = pre ++ (segment_warnings ++ segment_warnings
                   ++ segment_warnings ++ segment_warnings) ++ post))
  /\ (select (load markup) SELECTORS.followingDays None = [] ->
      next_of markup = []).
Proof.
  split.
  - intros H.
    destruct (todayWeather_without_card (load markup) H) as (s9 & G & Hst & Hfields).
    split; [|split].
    + rewrite today_of_run. exact Hfields.
    + intros n st Hp. apply getSegmentData_absent.
      apply (absent_on_same_page (load markup)); [exact Hp|exact H].
    + rewrite fetchWeather_run. cbn [snd].
      destruct (steady_nextDays (snd (todayWeather (load markup)))) as [_ [post Hpost]].
      destruct G as [_ [pre Hpre]].
      exists pre, post. rewrite Hpost, Hst. cbn [log logged]. rewrite Hpre.
      cbn [log load app]. rewrite <- !app_assoc. reflexivity.
  - intros Hrows. rewrite next_of_run, nextDays_run.
    rewrite (absent_on_same_page (load markup) _ SELECTORS.followingDays); [reflexivity| |exact Hrows].
    apply steady_todayWeather.
Qed.

Lemma today_card_absent_witness :
  (select (load Sample.no_today) SELECTORS.today None = []
   /\ DayWeather.afternoonTemperature (today_of Sample.no_today) = None
   /\ DayWeather.currentDayStage (today_of Sample.no_today) = None)
  /\ (select (load Sample.no_daily) SELECTORS.today None <> []
      /\ select (load Sample.no_daily) SELECTORS.followingDays None = []
      /\ next_of Sample.no_daily = []).
Proof.
  assert (H : select (load Sample.no_today) SELECTORS.today None = [])
    by (vm_compute; reflexivity).
  assert (R : select (load Sample.no_daily) SELECTORS.followingDays None = [])
    by (vm_compute; reflexivity).
  destruct (proj1 (today_card_absent Sample.no_today) H)
    as ((_ & _ & _ & Ha & _ & _ & _ & _ & _ & _ & _ & _ & Hs) & _).
  split; [split; [exact H|split; [exact Ha|exact Hs]]|].
  split; [vm_compute; discriminate|].
  split; [exact R|exact (proj2 (today_card_absent Sample.no_daily) R)].
Defined.

(** C8, refuted as stated: a page that lost the today card but kept
    the details module has no today card and a high that is not
    [null]; and on a page with nothing at all the 22 fields are
    [null] with 19 warnings, since high, low and [currentDayStage]
    write none. *)
Lemma field_outside_today_card :
  select (load Sample.no_today) SELECTORS.today None = []
  /\ DayWeather.tempHigh (today_of Sample.no_today) = Some (Int 75)
  /\ DayWeather.tempHigh (today_of Sample.blank) = None
  /\ List.length (log (snd (fetchWeather Sample.blank))) = 19.
Proof. repeat split; vm_compute; reflexivity. Qed.

(** ** The outlook *)

(** C5, evaluated: the daily table of the sample page has five rows;
    [fetchWeather] returns the four after the first, whatever their
    number, where its documentation announces the next two days; the
    command line variant, [slice(1, 3)], returns rows 1 and 2. *)
Theorem nextDays_has_no_horizon :
  List.length (select (load Sample.markup) SELECTORS.followingDays None) = 5
  /\ List.map DayRoundWeather.date (next_of Sample.markup)
     = [Some (str "Tue 04"); Some (str "Wed 05"); Some (str "Thu 06");
        Some (str "Fri 07")]
  /\ (forall markup,
        List.length (next_of markup)
        = List.length (select (load markup) SELECTORS.followingDays None) - 1)
  /\ (forall st,
        List.length (fst (Cli.nextDays st))
        = Nat.min 2 (List.length (select st SELECTORS.followingDays None) - 1))
  /\ List.map DayRoundWeather.date (fst (Cli.nextDays (load Sample.markup)))
     = [Some (str "Tue 04"); Some (str "Wed 05")].
Proof.
  split; [vm_compute; reflexivity|].
  split; [vm_compute; reflexivity|].
  split; [|split; [|vm_compute; reflexivity]].
  - intros markup. rewrite next_of_run, nextDays_run, length_mapM.
    unfold slice_from. rewrite length_skipn.
    rewrite (select_page_only _ (load markup) SELECTORS.followingDays None); [reflexivity| |exact I].
    apply steady_todayWeather.
  - intros st. rewrite cli_nextDays_run, length_mapM.
    unfold slice. rewrite length_firstn, length_skipn. reflexivity.
Qed.

(** ** Document order *)

Lemma StronglySorted_app {A : Type} (R : A -> A -> Prop) (l1 l2 : list A) :
  StronglySorted R l1 -> StronglySorted R l2 ->
  (forall a b, In a l1 -> In b l2 -> R a b) ->
  StronglySorted R (l1 ++ l2).
Proof.
  intros H1 H2 H12. induction H1 as [|a l1 Hs IH Ha]; simpl; [assumption|].
  constructor.
  - apply IH. intros x y Hx Hy. apply H12; simpl; auto.
  - apply Forall_app. split; [assumption|].
    apply Forall_forall. intros y Hy. apply H12; simpl; auto.
Qed.

Lemma StronglySorted_map {A B : Type} (R : A -> A -> Prop) (Q : B -> B -> Prop)
    (f : A -> B) (l : list A) :
  (forall a b, R a b -> Q (f a) (f b)) ->
  StronglySorted R l -> StronglySorted Q (List.map f l).
Proof.
  intros Hf H. induction H as [|a l Hs IH Ha]; simpl; constructor; [assumption|].
  apply Forall_forall. intros y Hy. apply in_map_iff in Hy as (x & <- & Hx).
  rewrite Forall_forall in Ha. auto.
Qed.

Lemma path_ltb_prefix (p x y : path) : path_ltb (p ++ x) (p ++ y) = path_ltb x y.
Proof.
  induction p as [|i p IH]; simpl; [reflexivity|].
  now rewrite Nat.ltb_irrefl, Nat.eqb_refl, IH.
Qed.

Lemma path_ltb_diverge (p q : path) :
  path_ltb p q = true -> above p q = false ->
  forall x y, path_ltb (p ++ x) (q ++ y) = true.
Proof.
  revert q. induction p as [|i p IH]; intros [|j q] Hlt Hab x y; simpl in *;
    try discriminate.
  destruct (i <? j)%nat; simpl in *; [reflexivity|].
  destruct (Nat.eqb i j); simpl in *; [|discriminate]. now apply IH.
Qed.

Lemma above_irrefl (p : path) : above p p = false.
Proof. induction p as [|i p IH]; simpl; [reflexivity|]. now rewrite Nat.eqb_refl. Qed.

(** The paths of a search below siblings start at the index of one
    of them. *)
Lemma find_forest_heads (s : selector) (l : list node) :
  forall ups i b p, In p (find_forest s ups i b l) -> exists j q, p = j :: q /\ i <= j.
Proof.
  induction l as [|c l IH]; intros ups i b p H; simpl in H; [contradiction|].
  apply in_app_iff in H as [H|H].
  - apply in_map_iff in H as (q & <- & _). exists i, q. auto.
  - apply IH in H as (j & q & -> & Hle). exists j, q. split; [reflexivity|lia].
Qed.

Lemma find_node_sorted (s : selector) (n : node) :
  forall ups pos, StronglySorted path_lt (find_node s ups pos n).
Proof.
  induction n as [t a cs IH| |] using node_ind'; intros ups pos;
    try (simpl; constructor).
  rewrite find_node_elem. apply StronglySorted_app.
  - destruct (matches s _ ups); repeat constructor.
  - generalize (mkInfo t a pos :: ups). generalize O at 1. generalize O.
    induction IH as [|c cs Hc _ IHcs]; intros b i u; simpl; [constructor|].
    apply StronglySorted_app.
    + apply StronglySorted_map with (R := path_lt); [|apply Hc].
      intros p q Hpq. unfold path_lt in *. simpl.
      now rewrite Nat.ltb_irrefl, Nat.eqb_refl.
    + apply IHcs.
    + intros p q Hp Hq. apply in_map_iff in Hp as (p' & <- & _).
      apply find_forest_heads in Hq as (j & q' & -> & Hle).
      unfold path_lt. simpl. apply orb_true_iff. left. apply Nat.ltb_lt. lia.
  - intros p q Hp Hq. destruct (matches s _ ups); [|contradiction].
    destruct Hp as [<-|[]].
    apply find_forest_heads in Hq as (j & q' & -> & _). reflexivity.
Qed.

Lemma find_forest_sorted (s : selector) (l : list node) :
  forall ups i b, StronglySorted path_lt (find_forest s ups i b l).
Proof.
  induction l as [|c l IH]; intros ups i b; simpl; [constructor|].
  apply StronglySorted_app.
  - apply StronglySorted_map with (R := path_lt); [|apply find_node_sorted].
    intros p q Hpq. unfold path_lt in *. simpl.
    now rewrite Nat.ltb_irrefl, Nat.eqb_refl.
  - apply IH.
  - intros p q Hp Hq. apply in_map_iff in Hp as (p' & <- & _).
    apply find_forest_heads in Hq as (j & q' & -> & Hle).
    unfold path_lt. simpl. apply orb_true_iff. left. apply Nat.ltb_lt. lia.
Qed.

(** The scopes a search starts from are in the order of the
    selection, and none lies below another. *)
Lemma outermost_from_sorted (seen hs all : selection) :
  StronglySorted before hs -> StronglySorted before (outermost_from seen hs all).
Proof.
  intros H. revert seen. induction H as [|h hs Hs IH Hh]; intros seen; simpl;
    [constructor|].
  match goal with |- context [if ?b then _ else _] => destruct b end; [apply IH|].
  constructor; [apply IH|].
  apply Forall_forall. intros x Hx. apply outermost_from_incl in Hx.
  rewrite Forall_forall in Hh. auto.
Qed.

Lemma outermost_from_apart (seen hs all : selection) (h a : handle) :
  In h (outermost_from seen hs all) -> In a all ->
  h_root a = h_root h -> above (h_path a) (h_path h) = false.
Proof.
  revert seen. induction hs as [|x hs IH]; intros seen Hin Ha Hr; simpl in Hin;
    [contradiction|].
  match type of Hin with
  | In _ (if ?b then _ else _) => destruct b eqn:E
  end; [eapply IH; eauto|].
  destruct Hin as [<-|Hin]; [|eapply IH; eauto].
  apply orb_false_iff in E as [_ E].
  destruct (above (h_path a) (h_path x)) eqn:Eab; [|reflexivity].
  assert (Hex : existsb (fun a0 => root_eqb (h_root a0) (h_root x)
                                   && above (h_path a0) (h_path x)) all = true).
  { apply existsb_exists. exists a. split; [assumption|].
    rewrite Eab, andb_true_r. now apply root_eqb_eq. }
  congruence.
Qed.

Lemma select_sorted (st : store) (s : selector) (c : option selection) :
  match c with
  | None => True
  | Some hs => StronglySorted before hs
  end ->
  StronglySorted before (select st s c).
Proof.
  destruct c as [hs|]; intros Hc; simpl.
  - assert (Hsorted : StronglySorted before (outermost hs))
      by (apply outermost_from_sorted, Hc).
    assert (Hapart : forall h a, In h (outermost hs) -> In a (outermost hs) ->
                                 h_root a = h_root h ->
                                 above (h_path a) (h_path h) = false).
    { intros h a Hh Ha. apply (outermost_from_apart [] hs hs h a Hh).
      now apply outermost_incl. }
    revert Hsorted Hapart. generalize (outermost hs). intros L HL.
    induction HL as [|h L HsL IH Hh]; intros Hapart; simpl; [constructor|].
    apply StronglySorted_app.
    + destruct (node_at st h) as [[t a cs| |]|]; try constructor.
      apply StronglySorted_map with (R := path_lt); [|apply find_forest_sorted].
      intros p q Hpq. split; [reflexivity|]. simpl. now rewrite path_ltb_prefix.
    + apply IH. intros x y Hx Hy. apply Hapart; simpl; auto.
    + intros x y Hx Hy. apply in_flat_map in Hy as (h' & Hh' & Hy).
      rewrite Forall_forall in Hh. destruct (Hh h' Hh') as [Hroot Hlt].
      destruct (node_at st h) as [[t a cs| |]|]; try contradiction.
      destruct (node_at st h') as [[t' a' cs'| |]|]; try contradiction.
      apply in_map_iff in Hx as (p & <- & _). apply in_map_iff in Hy as (q & <- & _).
      split; [exact Hroot|]. simpl. apply path_ltb_diverge; [exact Hlt|].
      apply Hapart; simpl; auto.
  - apply StronglySorted_map with (R := path_lt); [|apply find_forest_sorted].
    intros p q Hpq. split; [reflexivity|exact Hpq].
Qed.

(** ** High and low *)

Lemma last_rev (hs : selection) :
  last hs = match rev hs with
            | [] => []
            | h :: _ => [h]
            end.
Proof.
  unfold last. destruct (rev hs) as [|h t] eqn:E.
  - apply (f_equal (@rev handle)) in E. rewrite rev_involutive in E. now subst.
  - apply (f_equal (@rev handle)) in E. rewrite rev_involutive in E. simpl in E.
    subst hs. rewrite length_app. simpl.
    replace (List.length (rev t) + 1 - 1) with (List.length (rev t) + 0) by lia.
    rewrite skipn_app, skipn_all2 by lia.
    replace (List.length (rev t) + 0 - List.length (rev t)) with 0 by lia.
    reflexivity.
Qed.

Lemma first_temperature_high (card : selection) (st : store) :
  first_temperature card st = (high_of st card, st).
Proof.
  unfold first_temperature, read, high_of. f_equal.
  destruct (select st SELECTORS.temperature (Some card)); reflexivity.
Qed.

Lemma last_temperature_low (card : selection) (st : store) :
  last_temperature card st = (low_of st card, st).
Proof.
  unfold last_temperature, read, low_of. f_equal. rewrite last_rev.
  destruct (rev (select st SELECTORS.temperature (Some card))); reflexivity.
Qed.

Lemma high_low_page_only (st st' : store) (card : selection) :
  page st = page st' -> on_page card ->
  high_of st card = high_of st' card /\ low_of st card = low_of st' card.
Proof.
  intros Hp Hc. unfold high_of, low_of, node_text.
  rewrite (select_page_only st st' SELECTORS.temperature (Some card) Hp Hc).
  assert (Hsel : on_page (select st' SELECTORS.temperature (Some card)))
    by (apply select_on_page; exact Hc).
  split.
  - destruct (select st' SELECTORS.temperature (Some card)) as [|h l]; [reflexivity|].
    rewrite (text_of_page_only st st' [h] Hp); [reflexivity|].
    constructor; [|constructor]. now inversion Hsel.
  - assert (Hrev : on_page (rev (select st' SELECTORS.temperature (Some card)))).
    { eapply on_page_sub; [|exact Hsel]. intros h. apply in_rev. }
    destruct (rev (select st' SELECTORS.temperature (Some card))) as [|h l]; [reflexivity|].
    rewrite (text_of_page_only st st' [h] Hp); [reflexivity|].
    constructor; [|constructor]. now inversion Hrev.
Qed.

Lemma todayWeather_high_low (st : store) :
  let card := select st SELECTORS.todayDetails None in
  DayWeather.tempHigh (fst (todayWeather st)) = high_of st card
  /\ DayWeather.tempLow (fst (todayWeather st)) = low_of st card.
Proof.
  cbv zeta. rewrite todayWeather_run. cbv zeta.
  cbn [fst DayWeather.tempHigh DayWeather.tempLow].
  rewrite last_temperature_low, first_temperature_high. cbn [fst snd].
  assert (Hc : on_page (select st SELECTORS.todayDetails None))
    by (apply select_on_page; exact I).
  match goal with
  | |- high_of ?s _ = _ /\ _ =>
      assert (G : grows st s) by grows_chain;
      destruct (high_low_page_only s st _ (proj1 G) Hc) as [-> ->]
  end.
  split; reflexivity.
Qed.

Lemma outlookRow_run (el : handle) (st : store) :
  let dayCard := [el] in
  let r3 := getText SELECTORS.h3_span (Some dayCard) st in
  let r4 := getText SELECTORS.condition (Some dayCard) (snd r3) in
  let r5 := getPercentage SELECTORS.chanceOfRain (Some dayCard) (snd r4) in
  outlookRow el st
  = (DayRoundWeather.mk (fst r3) (fst r4) (fst r5)
       (low_of st dayCard) (high_of st dayCard),
     snd r5).
Proof.
  unfold outlookRow. cbv zeta. run.
  rewrite first_temperature_high. cbn [fst snd].
  rewrite last_temperature_low. reflexivity.
Qed.

Lemma mapM_outlookRow_high_low (st0 : store) (rows : selection) :
  on_page rows ->
  forall st, page st = page st0 ->
    List.map DayRoundWeather.tempHigh (fst (mapM outlookRow rows st))
    = List.map (fun row => high_of st0 [row]) rows
    /\ List.map DayRoundWeather.tempLow (fst (mapM outlookRow rows st))
       = List.map (fun row => low_of st0 [row]) rows.
Proof.
  intros Hrows. induction Hrows as [|el rows Hel _ IH]; intros st Hp; simpl;
    [split; reflexivity|].
  rewrite !bind_run. cbn [fst snd ret map].
  assert (G : grows st (snd (outlookRow el st))) by apply steady_outlookRow.
  destruct (IH (snd (outlookRow el st))) as [IHh IHl]; [destruct G; congruence|].
  rewrite IHh, IHl. rewrite outlookRow_run. cbv zeta.
  cbn [fst DayRoundWeather.tempHigh DayRoundWeather.tempLow].
  assert (Hc : on_page [el]) by (constructor; [exact Hel|constructor]).
  destruct (high_low_page_only st st0 [el] Hp Hc) as [-> ->].
  split; reflexivity.
Qed.

(** C9: the high of today is read from the first and the low from the
    last of the temperature leaves found below the details module,
    and each row of the outlook has its high and low read the same
    way from the leaves below the row; the leaves are listed in
    document order. *)
Theorem high_first_low_last (markup : list node) :
  let st := load markup in
  let card := select st SELECTORS.todayDetails None in
  let rows := slice_from 1 (select st SELECTORS.followingDays None) in
  DayWeather.tempHigh (today_of markup) = high_of st card
  /\ DayWeather.tempLow (today_of markup) = low_of st card
  /\ List.map DayRoundWeather.tempHigh (next_of markup)
     = List.map (fun row => high_of st [row]) rows
  /\ List.map DayRoundWeather.tempLow (next_of markup)
     = List.map (fun row => low_of st [row]) rows
  /\ StronglySorted before (select st SELECTORS.temperature (Some card))
  /\ Forall (fun row =>
               StronglySorted before (select st SELECTORS.temperature (Some [row])))
            rows
  /\ DayWeather.tempHigh (today_of Sample.markup) = Some (Int 75)
  /\ DayWeather.tempLow (today_of Sample.markup) = Some (Int 58).
Proof.
  cbv zeta.
  destruct (todayWeather_high_low (load markup)) as [Hh Hl].
  split; [rewrite today_of_run; exact Hh|].
  split; [rewrite today_of_run; exact Hl|].
  assert (Hrows : on_page (slice_from 1 (select (load markup) SELECTORS.followingDays None)))
    by (apply on_page_slice_from, select_on_page; exact I).
  assert (G : grows (load markup) (snd (todayWeather (load markup))))
    by apply steady_todayWeather.
  destruct (mapM_outlookRow_high_low (load markup) _ Hrows
              (snd (todayWeather (load markup))) (proj1 G)) as [Hnh Hnl].
  rewrite next_of_run, nextDays_run.
  rewrite (select_page_only _ (load markup) SELECTORS.followingDays None (proj1 G) I).
  split; [exact Hnh|]. split; [exact Hnl|].
  split; [|split; [|split; vm_compute; reflexivity]].
  - apply select_sorted. apply (select_sorted (load markup) _ None). exact I.
  - apply Forall_forall. intros row _. apply select_sorted. repeat constructor.
Qed.

(** ** Temperature normalization *)




(** * Further properties *)

(** ** The projection of the parallel arrays *)

Lemma project_arrays (ids cities districts countries : list jsval) :
  let raw := JObj [(str "placeId", JArr ids); (str "city", JArr cities);
                   (str "adminDistrict", JArr districts);
                   (str "country", JArr countries)] in
  Js.bind (get (entry_of ids cities districts countries) (str "data")) (fun payload =>
    Js.bind (get payload (str "location")) project)
  = collect raw (seq 0 (List.length ids)).
Proof. reflexivity. Qed.

Lemma nth_map_JStr (xs : list jsstring) (i : nat) :
  nth_or_undefined i (List.map JStr xs)
  = match nth_error xs i with
    | Some s => JStr s
    | None => Undefined
    end.
Proof.
  unfold nth_or_undefined. revert i.
  induction xs as [|x xs IH]; intros [|i]; simpl; auto.
Qed.

Lemma to_string_at (xs : list jsstring) (i : nat) :
  to_string (nth_or_undefined i (List.map JStr xs)) = Ok (text_at xs i).
Proof.
  rewrite nth_map_JStr. unfold text_at. destruct (nth_error xs i); reflexivity.
Qed.

Lemma location_at_arrays (ids cities districts countries : list jsstring) (i : nat) :
  i < List.length ids ->
  location_at (JObj [(str "placeId", JArr (List.map JStr ids));
                     (str "city", JArr (List.map JStr cities));
                     (str "adminDistrict", JArr (List.map JStr districts));
                     (str "country", JArr (List.map JStr countries))]) i
  = Ok (place_at ids cities districts countries i).
Proof.
  intros Hi. unfold location_at.
  change (get _ (str "placeId")) with (@Ok jsval (JArr (List.map JStr ids))).
  change (get _ (str "city")) with (@Ok jsval (JArr (List.map JStr cities))).
  change (get _ (str "adminDistrict")) with (@Ok jsval (JArr (List.map JStr districts))).
  change (get _ (str "country")) with (@Ok jsval (JArr (List.map JStr countries))).
  cbn [Js.bind get_index]. rewrite !to_string_at. cbn [Js.bind].
  unfold place_at. f_equal. f_equal.
  rewrite nth_map_JStr. destruct (nth_error ids i) eqn:E.
  - now rewrite (nth_error_nth _ _ _ E).
  - apply nth_error_None in E. lia.
Qed.

Lemma collect_arrays (ids cities districts countries : list jsstring) (l : list nat) :
  Forall (fun i => i < List.length ids) l ->
  collect (JObj [(str "placeId", JArr (List.map JStr ids));
                 (str "city", JArr (List.map JStr cities));
                 (str "adminDistrict", JArr (List.map JStr districts));
                 (str "country", JArr (List.map JStr countries))]) l
  = Ok (List.map (place_at ids cities districts countries) l).
Proof.
  intros H. induction H as [|i l Hi _ IH]; [reflexivity|].
  cbn [collect]. rewrite location_at_arrays by assumption. cbn [Js.bind].
  rewrite IH. reflexivity.
Qed.

Lemma place_at_shift (a b c d : jsstring) (ids cities districts countries : list jsstring)
    (n : nat) :
  List.map (place_at (a :: ids) (b :: cities) (c :: districts) (d :: countries)) (seq 1 n)
  = List.map (place_at ids cities districts countries) (seq 0 n).
Proof. rewrite <- seq_shift, map_map. reflexivity. Qed.

Lemma place_at_rows (rows : list Row) :
  List.map (place_at (List.map row_id rows) (List.map row_city rows)
                     (List.map row_district rows) (List.map row_country rows))
           (seq 0 (List.length rows))
  = List.map place_of rows.
Proof.
  induction rows as [|r rows IH]; [reflexivity|].
  cbn [List.length seq List.map]. rewrite place_at_shift, IH. reflexivity.
Qed.

(** What [fetchLocations] does with the entry under the first key. *)
Lemma fetchLocations_head (k : jsstring) (v : jsval) (rest : list (jsstring * jsval)) :
  fetchLocations (envelope ((k, v) :: rest))
  = Js.bind (get v (str "data")) (fun payload =>
      Js.bind (get payload (str "location")) project).
Proof.
  rewrite fetchLocations_envelope, first_key_value_head. reflexivity.
Qed.

Lemma fetchLocations_arrays (k : jsstring) (rest : list (jsstring * jsval))
    (ids cities districts countries : list jsstring) :
  fetchLocations (envelope ((k, arrays_of ids cities districts countries) :: rest))
  = Ok (List.map (place_at ids cities districts countries) (seq 0 (List.length ids))).
Proof.
  rewrite fetchLocations_head.
  unfold arrays_of. rewrite project_arrays. cbv zeta.
  rewrite length_map. apply collect_arrays.
  apply Forall_forall. intros i Hi. apply in_seq in Hi. lia.
Qed.

Lemma fetchLocations_rows (k : jsstring) (rows : list Row) :
  fetchLocations (response_of k rows) = Ok (List.map place_of rows).
Proof.
  unfold response_of. rewrite fetchLocations_arrays, length_map.
  f_equal. apply place_at_rows.
Qed.

(** X1: a response whose arrays hold strings is projected position by
    position, in the order of the response: one place per entry of
    [placeId], named [city, adminDistrict, country]; an array shorter
    than [placeId] contributes the text [undefined].  A response that
    lists places gives those places back. *)
Theorem fetchLocations_projects_arrays
    (k : jsstring) (rest : list (jsstring * jsval))
    (ids cities districts countries : list jsstring) (rows : list Row) :
  fetchLocations (envelope ((k, arrays_of ids cities districts countries) :: rest))
  = Ok (List.map (place_at ids cities districts countries) (seq 0 (List.length ids)))
  /\ fetchLocations (response_of k rows) = Ok (List.map place_of rows).
Proof.
  split; [apply fetchLocations_arrays|apply fetchLocations_rows].
Qed.

(** ** Responses without places, and responses that do not decode *)

Lemma fetchLocations_location_in (k : jsstring) (entry : jsval)
    (rest : list (jsstring * jsval)) :
  fetchLocations (envelope ((k, entry) :: rest))
  = Js.bind (location_in entry) project.
Proof.
  rewrite fetchLocations_head. unfold location_in.
  destruct (get entry (str "data")); reflexivity.
Qed.

(** X2: a response whose [location] is missing or falsy, or has no
    [placeId] or a falsy one, gives the empty list and no error,
    whatever else the entry, its [data] and its [location] hold. *)
Theorem fetchLocations_no_placeId
    (k : jsstring) (rest : list (jsstring * jsval)) (entry locationsRaw : jsval) :
  location_in entry = Ok locationsRaw ->
  truthy locationsRaw = false
  \/ (exists ids, get locationsRaw (str "placeId") = Ok ids /\ truthy ids = false) ->
  fetchLocations (envelope ((k, entry) :: rest)) = Ok [].
Proof.
  intros Hloc Hno. rewrite fetchLocations_location_in, Hloc. cbn [Js.bind].
  unfold project. destruct Hno as [Hf|(ids & Hids & Hf)].
  - now rewrite Hf.
  - rewrite Hids. cbn [Js.bind]. rewrite Hf. now destruct (truthy locationsRaw).
Qed.

Lemma fetchLocations_no_placeId_witness :
  fetchLocations
    (envelope [(str "k", entry_holding [(str "city", JArr [JStr (str "Gary")])])])
  = Ok []
  /\ fetchLocations
       (envelope [(str "k", JObj [(str "loading", JBool false);
                                  (str "data", JObj [(str "location", JNull)])])])
     = Ok []
  /\ fetchLocations
       (envelope [(str "k", JObj [(str "loading", JBool false);
                                  (str "data", JObj [(str "errors", JArr [])])])])
     = Ok [].
Proof.
  split; [|split].
  - apply (fetchLocations_no_placeId (str "k") []
             (entry_holding [(str "city", JArr [JStr (str "Gary")])])
             (JObj [(str "city", JArr [JStr (str "Gary")])]) eq_refl).
    right. exists Undefined. split; reflexivity.
  - apply (fetchLocations_no_placeId (str "k") []
             (JObj [(str "loading", JBool false);
                    (str "data", JObj [(str "location", JNull)])])
             JNull eq_refl).
    left. reflexivity.
  - apply (fetchLocations_no_placeId (str "k") []
             (JObj [(str "loading", JBool false);
                    (str "data", JObj [(str "errors", JArr [])])])
             Undefined eq_refl).
    left. reflexivity.
Defined.

(** X3: a rejected request is a [NetworkError]; a body without [dal],
    a namespace object without any key, and an entry without [data]
    are [TypeError]s: none of them gives a list. *)
Theorem fetchLocations_decode_errors
    (k : jsstring) (rest bodyFields entryFields : list (jsstring * jsval)) :
  lookup (str "dal") bodyFields = Undefined ->
  lookup (str "data") entryFields = Undefined ->
  fetchLocations Rejected = Throw NetworkError
  /\ fetchLocations (Resolved (JObj bodyFields)) = Throw TypeError
  /\ fetchLocations (envelope []) = Throw TypeError
  /\ fetchLocations (envelope ((k, JObj entryFields) :: rest)) = Throw TypeError.
Proof.
  intros Hdal Hdata. split; [reflexivity|]. split; [|split; [reflexivity|]].
  - unfold fetchLocations. cbn [get Js.bind]. now rewrite Hdal.
  - rewrite (fetchLocations_head k (JObj entryFields) rest).
    cbn [get Js.bind]. now rewrite Hdata.
Qed.

Lemma fetchLocations_decode_errors_witness :
  fetchLocations (Resolved (JObj [(str "errors", JArr [])])) = Throw TypeError
  /\ fetchLocations (envelope [(str "k", JObj [(str "loading", JBool true)])])
     = Throw TypeError.
Proof.
  destruct (fetchLocations_decode_errors (str "k") []
              [(str "errors", JArr [])] [(str "loading", JBool true)]
              eq_refl eq_refl) as (_ & H1 & _ & H2).
  split; [exact H1|exact H2].
Defined.







(** X5: when [placeId] has an entry and one of the arrays [city],
    [adminDistrict], [country] is missing, the call throws, whatever
    else the entry holds: no place is returned, not even those an
    earlier array could name. *)
Theorem fetchLocations_missing_array
    (k : jsstring) (rest : list (jsstring * jsval)) (entry : jsval)
    (locationFields : list (jsstring * jsval)) (id : jsval) (ids : list jsval) :
  location_in entry = Ok (JObj locationFields) ->
  lookup (str "placeId") locationFields = JArr (id :: ids) ->
  lookup (str "city") locationFields = Undefined
  \/ (exists cities, lookup (str "city") locationFields = JArr (List.map JStr cities))
     /\ (lookup (str "adminDistrict") locationFields = Undefined
         \/ (exists districts,
               lookup (str "adminDistrict") locationFields = JArr (List.map JStr districts))
            /\ lookup (str "country") locationFields = Undefined) ->
  fetchLocations (envelope ((k, entry) :: rest)) = Throw TypeError.
Proof.
  intros Hloc Hids Hmiss. rewrite fetchLocations_location_in, Hloc. cbn [Js.bind].
  unfold project. cbn [truthy get Js.bind]. rewrite Hids.
  cbn [truthy array_length Js.bind List.length seq collect].
  unfold location_at. cbn [get Js.bind]. rewrite Hids. cbn [get_index Js.bind].
  destruct Hmiss as [Hc|[[cities Hc] Hmiss]]; rewrite Hc; [reflexivity|].
  cbn [get_index Js.bind]. rewrite to_string_at. cbn [Js.bind].
  destruct Hmiss as [Hd|[[districts Hd] Hn]]; rewrite Hd; [reflexivity|].
  cbn [get_index Js.bind]. rewrite to_string_at. cbn [Js.bind].
  rewrite Hn. reflexivity.
Qed.

Lemma fetchLocations_missing_array_witness :
  fetchLocations
    (envelope [(str "k",
                entry_holding [(str "placeId", JArr [JStr (str "a1")]);
                               (str "city", JArr [JStr (str "Gary")]);
                               (str "country", JArr [JStr (str "US")])])])
  = Throw TypeError.
Proof.
  apply (fetchLocations_missing_array (str "k") []
           (entry_holding [(str "placeId", JArr [JStr (str "a1")]);
                           (str "city", JArr [JStr (str "Gary")]);
                           (str "country", JArr [JStr (str "US")])])
           [(str "placeId", JArr [JStr (str "a1")]);
            (str "city", JArr [JStr (str "Gary")]);
            (str "country", JArr [JStr (str "US")])]
           (JStr (str "a1")) []).
  - reflexivity.
  - reflexivity.
  - right. split; [exists [str "Gary"]; reflexivity|]. left. reflexivity.
Defined.

(** ** Choosing a place *)

Lemma values_of_choices (locations : list Location) :
  List.map Choice.value (List.map choice_of locations) = locations.
Proof. rewrite map_map. apply map_id. Qed.

Lemma takes_last_answers : answers_from_choices takes_last.
Proof.
  intros choices Hne. unfold takes_last.
  destruct (rev choices) as [|c r] eqn:E.
  - apply (f_equal (@rev Choice.t)) in E. rewrite rev_involutive in E. contradiction.
  - apply in_map. apply in_rev. rewrite E. now left.
Qed.

Lemma weatherTUI_select_none
    (prompt : list Choice.t -> Location) (isTTY : bool) (locations : list Location) :
  weatherTUI_select prompt isTTY locations = None <-> locations = [].
Proof.
  unfold weatherTUI_select. destruct locations as [|a [|b rest]].
  - simpl. split; reflexivity.
  - simpl. split; intros H; discriminate H.
  - cbn [firstn List.map List.length Nat.ltb Nat.leb andb].
    split; intros H; destruct isTTY; discriminate H.
Qed.

Lemma weatherTUI_select_in
    (prompt : list Choice.t -> Location) (isTTY : bool) (locations : list Location)
    (l : Location) :
  answers_from_choices prompt ->
  weatherTUI_select prompt isTTY locations = Some l -> In l (firstn 3 locations).
Proof.
  intros Hprompt. unfold weatherTUI_select.
  destruct locations as [|a [|b rest]].
  - simpl. intros H; discriminate H.
  - simpl. intros H. inversion H. now left.
  - cbn [firstn List.map List.length Nat.ltb Nat.leb andb].
    intros H. destruct isTTY.
    + inversion H; subst.
      pose proof (Hprompt (choice_of a :: choice_of b
                           :: List.map choice_of (firstn 1 rest))) as Hp.
      cbn [List.map Choice.value choice_of] in Hp.
      rewrite values_of_choices in Hp. apply Hp. discriminate.
    + inversion H. now left.
Qed.

Lemma weatherTUI_select_first
    (prompt : list Choice.t -> Location) (isTTY : bool) (locations : list Location) :
  isTTY = false \/ List.length locations = 1 ->
  weatherTUI_select prompt isTTY locations = hd_error locations.
Proof.
  unfold weatherTUI_select. destruct locations as [|a [|b rest]].
  - reflexivity.
  - reflexivity.
  - cbn [firstn List.map List.length Nat.ltb Nat.leb andb hd_error].
    intros [->|Hone]; [reflexivity|discriminate Hone].
Qed.

(** X6: [weatherTUI] stops with exit code 1 exactly when no place was
    found; otherwise the place it goes on with is one of the first
    three found, and it is the first one whenever the terminal is not
    interactive or a single place was found. *)
Theorem weatherTUI_select_among_first_three
    (prompt : list Choice.t -> Location) (isTTY : bool) (locations : list Location) :
  answers_from_choices prompt ->
  (weatherTUI_select prompt isTTY locations = None <-> locations = [])
  /\ (forall l, weatherTUI_select prompt isTTY locations = Some l ->
                In l (firstn 3 locations))
  /\ (isTTY = false \/ List.length locations = 1 ->
      weatherTUI_select prompt isTTY locations = hd_error locations).
Proof.
  intros Hprompt. split; [apply weatherTUI_select_none|]. split.
  - intros l. now apply weatherTUI_select_in.
  - apply weatherTUI_select_first.
Qed.

Lemma weatherTUI_select_among_first_three_witness :
  let a := mkLocation (JStr (str "a")) (str "Gary, Indiana, United States") in
  let b := mkLocation (JStr (str "b")) (str "Gary, Texas, United States") in
  answers_from_choices takes_last
  /\ weatherTUI_select takes_last true [a; b; a; b] = Some a
  /\ In a (firstn 3 [a; b; a; b])
  /\ weatherTUI_select takes_last false [a; b; a; b] = Some a.
Proof.
  cbv zeta.
  set (a := mkLocation (JStr (str "a")) (str "Gary, Indiana, United States")).
  set (b := mkLocation (JStr (str "b")) (str "Gary, Texas, United States")).
  destruct (weatherTUI_select_among_first_three takes_last true [a; b; a; b]
              takes_last_answers) as (_ & Hin & _).
  destruct (weatherTUI_select_among_first_three takes_last false [a; b; a; b]
              takes_last_answers) as (_ & _ & Hfirst).
  split; [exact takes_last_answers|]. split; [reflexivity|].
  split; [apply Hin; reflexivity|]. apply Hfirst. now left.
Defined.

(** X7: the command line variant, which cuts the list at the prompt
    and not before, goes on with the same place as [weatherTUI], for
    every list, terminal and user. *)
Theorem select_variants_agree
    (prompt : list Choice.t -> Location) (isTTY : bool) (locations : list Location) :
  getWeather_select prompt isTTY locations = weatherTUI_select prompt isTTY locations.
Proof.
  unfold getWeather_select, weatherTUI_select. rewrite firstn_map.
  destruct locations as [|a [|b rest]]; reflexivity.
Qed.

(** ** What [getText] returns *)

(** X8: [getText] returns either [null] or a text that is not empty
    and has no white space at its ends, the trimmed text of the nodes
    found; [null] stands for two cases, a selector that matched
    nothing, in which one warning is written, and nodes whose text is
    blank, in which nothing is written. *)
Theorem getText_contract (st : store) (selector : selector)
    (context : option selection) :
  let found := select st selector context in
  let result := getText selector context st in
  fst result <> Some []
  /\ match fst result with
     | Some t =>
         found <> [] /\ t = trim (text_of st found) /\ edge_clean t = true
         /\ snd result = st
     | None =>
         (found = [] /\ snd result = logged st [warning selector])
         \/ (found <> [] /\ all_space (text_of st found) = true /\ snd result = st)
     end.
Proof.
  cbv zeta. destruct (select st selector context) as [|h hs] eqn:E.
  - rewrite getText_missing by assumption. cbn [fst snd].
    split; [discriminate|]. left. split; reflexivity.
  - rewrite getText_found by congruence. rewrite E. cbn [fst snd]. unfold or_null.
    destruct (trim (text_of st (h :: hs))) as [|c t] eqn:Et.
    + split; [discriminate|]. right. split; [discriminate|].
      split; [now apply trim_nil|reflexivity].
    + split; [discriminate|]. split; [discriminate|]. split; [reflexivity|].
      split; [|reflexivity]. rewrite <- Et. apply trim_edge_clean.
Qed.

Lemma getText_variants (st : store) (selector : selector)
    (context : option selection) :
  snd (Cli.getText selector context st) = snd (getText selector context st)
  /\ fst (getText selector context st)
     = null_if_blank (fst (Cli.getText selector context st)).
Proof.
  destruct (select st selector context) as [|h hs] eqn:E.
  - rewrite cli_getText_missing, getText_missing by assumption. split; reflexivity.
  - assert (Hne : select st selector context <> []) by congruence.
    rewrite cli_getText_found, getText_found by assumption.
    cbn [fst snd]. unfold or_null, null_if_blank.
    destruct (trim (text_of st (select st selector context))); split; reflexivity.
Qed.

Lemma getTemp_variants (st : store) (selector : selector)
    (context : option selection) :
  Cli.getTemp selector context st = getTemp selector context st.
Proof.
  destruct (select st selector context) as [|h hs] eqn:E.
  - unfold Cli.getTemp. rewrite bind_run.
    rewrite cli_getText_missing, getTemp_missing by assumption. reflexivity.
  - assert (Hne : select st selector context <> []) by congruence.
    unfold Cli.getTemp. rewrite bind_run.
    rewrite cli_getText_found, getTemp_found by assumption.
    cbn [fst snd]. unfold ret, normalizeTemperature.
    destruct (trim (text_of st (select st selector context))); reflexivity.
Qed.

(** X9: the lookups of the command line variant and of the weather
    module differ in one point only: a match with blank text is the
    empty string for the older [getText] and [null] for the newer.
    Their [getTemp] return the same value and leave the same store,
    for every store, selector and context. *)
Theorem lookups_of_both_variants (st : store) (selector : selector)
    (context : option selection) :
  Cli.getTemp selector context st = getTemp selector context st
  /\ snd (Cli.getText selector context st) = snd (getText selector context st)
  /\ fst (getText selector context st)
     = null_if_blank (fst (Cli.getText selector context st)).
Proof.
  split; [apply getTemp_variants|apply getText_variants].
Qed.

(** ** Lookups do not disturb one another *)

Lemma getText_alone (st st' : store) (s : selector) (c : option selection) :
  page st = page st' -> context_on_page c ->
  fst (getText s c st) = fst (getText s c st').
Proof.
  intros Hp Hc. pose proof (select_page_only st st' s c Hp Hc) as Hsel.
  destruct (select st s c) as [|h hs] eqn:E.
  - rewrite !getText_missing by congruence. reflexivity.
  - rewrite !getText_found by congruence. cbn [fst]. rewrite <- Hsel, E.
    rewrite (text_of_page_only st st' (h :: hs) Hp); [reflexivity|].
    rewrite <- E. now apply select_on_page.
Qed.

Lemma getTemp_alone (st st' : store) (s : selector) (c : option selection) :
  page st = page st' -> context_on_page c ->
  fst (getTemp s c st) = fst (getTemp s c st').
Proof.
  intros Hp Hc. unfold getTemp. rewrite !bind_run. cbn [fst ret].
  now rewrite (getText_alone st st' s c Hp Hc).
Qed.

Lemma getPercentage_alone (st st' : store) (s : selector) (c : option selection) :
  page st = page st' -> context_on_page c ->
  fst (getPercentage s c st) = fst (getPercentage s c st').
Proof.
  intros Hp Hc. pose proof (select_page_only st st' s c Hp Hc) as Hsel.
  destruct (select st s c) as [|h hs] eqn:E.
  - rewrite !getPercentage_missing by congruence. reflexivity.
  - rewrite !getPercentage_found by congruence. cbn [fst]. rewrite <- Hsel, E.
    unfold own_text_of.
    rewrite (nodes_of_page_only st st' (h :: hs) Hp); [reflexivity|].
    rewrite <- E. now apply select_on_page.
Qed.

Ltac same_page_goal :=
  match goal with
  | |- page ?s = page ?s0 =>
      let G := fresh in
      assert (G : grows s0 s) by grows_chain; exact (proj1 G)
  end.

Lemma getSegmentData_alone (n : nat) (st st' : store) :
  page st = page st' ->
  fst (getSegmentData n st) = fst (getSegmentData n st').
Proof.
  intros Hp. rewrite !getSegmentData_run. cbv zeta. cbn [fst snd].
  rewrite (select_page_only st st' _ None Hp I).
  set (segmentEl := select st' (SELECTORS.segment_row SELECTORS.today n) None).
  assert (Hc : context_on_page (Some segmentEl))
    by (apply (select_on_page st' _ None); exact I).
  f_equal.
  - now apply getTemp_alone.
  - apply getText_alone; [|exact Hc].
    transitivity (page st); [same_page_goal|].
    transitivity (page st'); [exact Hp|symmetry; same_page_goal].
  - apply getPercentage_alone; [|exact Hc].
    transitivity (page st); [same_page_goal|].
    transitivity (page st'); [exact Hp|symmetry; same_page_goal].
  - apply is_page_only; [|exact Hc].
    transitivity (page st); [same_page_goal|].
    transitivity (page st'); [exact Hp|symmetry; same_page_goal].
Qed.

Lemma outlookRow_alone (el : handle) (st st' : store) :
  page st = page st' -> h_root el = Page ->
  fst (outlookRow el st) = fst (outlookRow el st').
Proof.
  intros Hp Hel. rewrite !outlookRow_run. cbv zeta. cbn [fst snd].
  assert (Hc : on_page [el]) by (constructor; [exact Hel|constructor]).
  destruct (high_low_page_only st st' [el] Hp Hc) as [-> ->].
  f_equal.
  - now apply getText_alone.
  - apply getText_alone; [|exact Hc].
    transitivity (page st); [same_page_goal|].
    transitivity (page st'); [exact Hp|symmetry; same_page_goal].
  - apply getPercentage_alone; [|exact Hc].
    transitivity (page st); [same_page_goal|].
    transitivity (page st'); [exact Hp|symmetry; same_page_goal].
Qed.

Lemma mapM_outlookRow_alone (st0 : store) (rows : selection) :
  on_page rows ->
  forall st, page st = page st0 ->
    fst (mapM outlookRow rows st) = List.map (fun row => fst (outlookRow row st0)) rows.
Proof.
  intros Hrows. induction Hrows as [|el rows Hel _ IH]; intros st Hp; [reflexivity|].
  cbn [mapM List.map]. rewrite !bind_run. cbn [fst ret]. f_equal.
  - now apply outlookRow_alone.
  - apply IH. destruct (steady_outlookRow el st) as [-> _]. exact Hp.
Qed.

Lemma today_of_alone (markup : list node) :
  let st := load markup in
  let card := select st SELECTORS.todayDetails None in
  let rows := slice_from 1 (select st SELECTORS.followingDays None) in
  let segment n := alone (getSegmentData n) markup in
  today_of markup
  = DayWeather.mk (high_of st card) (low_of st card)
      (as_of (alone (getText SELECTORS.time None) markup))
      (alone (getTemp SELECTORS.currentTemp None) markup)
      (alone (getTemp SELECTORS.temperature (Some card)) markup)
      (alone (getText SELECTORS.currentCondition None) markup)
      (alone (getPercentage SELECTORS.percentage (Some card)) markup)
      (alone (getText SELECTORS.uvIndex (Some card)) markup)
      (alone (getText SELECTORS.wind (Some card)) markup)
      (Segment.rain (segment 1)) (Segment.condition (segment 1)) (Segment.temp (segment 1))
      (Segment.rain (segment 2)) (Segment.condition (segment 2)) (Segment.temp (segment 2))
      (Segment.rain (segment 3)) (Segment.condition (segment 3)) (Segment.temp (segment 3))
      (Segment.rain (segment 4)) (Segment.condition (segment 4)) (Segment.temp (segment 4))
      (dayStage (segment 1) (segment 2) (segment 3) (segment 4)).
Proof.
  cbv zeta.
  rewrite today_of_run, todayWeather_run. cbv zeta. cbn [fst]. unfold alone.
  assert (Hc : context_on_page (Some (select (load markup) SELECTORS.todayDetails None)))
    by (apply (select_on_page (load markup) _ None); exact I).
  rewrite first_temperature_high, last_temperature_low. cbn [fst snd].
  match goal with
  | |- DayWeather.mk (high_of ?s ?c) _ _ _ _ _ _ _ _ _ _ _ _ _ _ _ _ _ _ _ _ _ = _ =>
      assert (G : grows (load markup) s) by grows_chain;
      destruct (high_low_page_only s (load markup) c (proj1 G) Hc) as [-> ->]
  end.
  repeat match goal with
         | |- context [fst (getSegmentData ?n ?s)] =>
             lazymatch s with
             | load markup => fail
             | _ => rewrite (getSegmentData_alone n s (load markup)) by same_page_goal
             end
         end.
  repeat match goal with
         | |- context [fst (getText ?s ?c ?x)] =>
             lazymatch x with
             | load markup => fail
             | _ => rewrite (getText_alone x (load markup) s c)
                 by first [same_page_goal|exact I|exact Hc]
             end
         | |- context [fst (getTemp ?s ?c ?x)] =>
             lazymatch x with
             | load markup => fail
             | _ => rewrite (getTemp_alone x (load markup) s c)
                 by first [same_page_goal|exact I|exact Hc]
             end
         | |- context [fst (getPercentage ?s ?c ?x)] =>
             lazymatch x with
             | load markup => fail
             | _ => rewrite (getPercentage_alone x (load markup) s c)
                 by first [same_page_goal|exact I|exact Hc]
             end
         end.
  reflexivity.
Qed.

Lemma next_of_alone (markup : list node) :
  next_of markup
  = List.map (fun row => alone (outlookRow row) markup)
      (slice_from 1 (select (load markup) SELECTORS.followingDays None)).
Proof.
  rewrite next_of_run, nextDays_run.
  assert (G : grows (load markup) (snd (todayWeather (load markup))))
    by apply steady_todayWeather.
  rewrite (select_page_only _ (load markup) SELECTORS.followingDays None (proj1 G) I).
  apply mapM_outlookRow_alone; [|exact (proj1 G)].
  apply on_page_slice_from, select_on_page. exact I.
Qed.

(** X10: the record [fetchWeather] returns is assembled from lookups
    that do not disturb one another: every field has the value its
    lookup gives when run alone on the page as loaded, and the
    outlook lists, in the order of the rows after the first, what the
    row callback gives for each row alone. *)
Theorem fetchWeather_fields_alone (markup : list node) :
  let st := load markup in
  let card := select st SELECTORS.todayDetails None in
  let rows := slice_from 1 (select st SELECTORS.followingDays None) in
  let segment n := alone (getSegmentData n) markup in
  today_of markup
  = DayWeather.mk (high_of st card) (low_of st card)
      (as_of (alone (getText SELECTORS.time None) markup))
      (alone (getTemp SELECTORS.currentTemp None) markup)
      (alone (getTemp SELECTORS.temperature (Some card)) markup)
      (alone (getText SELECTORS.currentCondition None) markup)
      (alone (getPercentage SELECTORS.percentage (Some card)) markup)
      (alone (getText SELECTORS.uvIndex (Some card)) markup)
      (alone (getText SELECTORS.wind (Some card)) markup)
      (Segment.rain (segment 1)) (Segment.condition (segment 1)) (Segment.temp (segment 1))
      (Segment.rain (segment 2)) (Segment.condition (segment 2)) (Segment.temp (segment 2))
      (Segment.rain (segment 3)) (Segment.condition (segment 3)) (Segment.temp (segment 3))
      (Segment.rain (segment 4)) (Segment.condition (segment 4)) (Segment.temp (segment 4))
      (dayStage (segment 1) (segment 2) (segment 3) (segment 4))
  /\ next_of markup = List.map (fun row => alone (outlookRow row) markup) rows.
Proof.
  cbv zeta. split; [apply today_of_alone|apply next_of_alone].
Qed.

(** ** What a run writes *)

Lemma wrote_refl (st : store) : wrote 0 st st.
Proof.
  split; [reflexivity|]. exists []. rewrite app_nil_r. repeat split; auto.
Qed.

Lemma wrote_trans (n m : nat) (a b c : store) :
  wrote n a b -> wrote m b c -> wrote (n + m) a c.
Proof.
  intros (Hp1 & l1 & Hl1 & Hn1 & Hw1) (Hp2 & l2 & Hl2 & Hn2 & Hw2).
  split; [congruence|]. exists (l1 ++ l2). split; [|split].
  - now rewrite Hl2, Hl1, app_assoc.
  - rewrite length_app. lia.
  - apply Forall_app. now split.
Qed.

Lemma wrote_weaken (n m : nat) (a b : store) : n <= m -> wrote n a b -> wrote m a b.
Proof.
  intros Hle (Hp & l & Hl & Hn & Hw). split; [exact Hp|].
  exists l. repeat split; auto. lia.
Qed.

Lemma wrote_logged (st : store) (s : selector) :
  In s catalog -> wrote 1 st (logged st [warning s]).
Proof.
  intros Hs. split; [reflexivity|]. exists [warning s]. split; [reflexivity|].
  split; [simpl; lia|]. constructor; [|constructor]. now apply in_map.
Qed.

Lemma getText_wrote (s : selector) (c : option selection) (st : store) :
  In s catalog -> wrote 1 st (snd (getText s c st)).
Proof.
  intros Hs. destruct (select st s c) eqn:E.
  - rewrite getText_missing by assumption. now apply wrote_logged.
  - rewrite getText_found by congruence. apply (wrote_weaken 0); [lia|apply wrote_refl].
Qed.

Lemma getTemp_wrote (s : selector) (c : option selection) (st : store) :
  In s catalog -> wrote 1 st (snd (getTemp s c st)).
Proof.
  intros Hs. destruct (select st s c) eqn:E.
  - rewrite getTemp_missing by assumption. now apply wrote_logged.
  - rewrite getTemp_found by congruence. apply (wrote_weaken 0); [lia|apply wrote_refl].
Qed.

Lemma getPercentage_wrote (s : selector) (c : option selection) (st : store) :
  In s catalog -> wrote 1 st (snd (getPercentage s c st)).
Proof.
  intros Hs. destruct (select st s c) eqn:E.
  - rewrite getPercentage_missing by assumption. now apply wrote_logged.
  - rewrite getPercentage_found by congruence. cbn [snd].
    split; [reflexivity|]. exists []. cbn [log]. rewrite app_nil_r.
    repeat split; auto.
Qed.

Lemma read_wrote {A : Type} (f : store -> A) (st : store) : wrote 0 st (snd (read f st)).
Proof. apply wrote_refl. Qed.

Ltac in_catalog := unfold catalog; repeat first [left; reflexivity | right].

Ltac wrote_op :=
  first [ apply getText_wrote; in_catalog
        | apply getTemp_wrote; in_catalog
        | apply getPercentage_wrote; in_catalog
        | apply (read_wrote (A := option jsnum)) ].

Ltac wrote_chain :=
  lazymatch goal with
  | |- wrote _ ?a ?a => apply wrote_refl
  | |- wrote _ ?a (snd (?m ?s)) =>
      eapply (wrote_trans _ _ a s); [wrote_chain | solve [wrote_op]]
  end.

Lemma getSegmentData_wrote (n : nat) (st : store) :
  wrote 3 st (snd (getSegmentData n st)).
Proof.
  rewrite getSegmentData_run. cbv zeta. cbn [snd].
  eapply wrote_weaken; [|wrote_chain]. simpl. lia.
Qed.

Lemma outlookRow_wrote (el : handle) (st : store) :
  wrote 3 st (snd (outlookRow el st)).
Proof.
  rewrite outlookRow_run. cbv zeta. cbn [snd].
  eapply wrote_weaken; [|wrote_chain]. simpl. lia.
Qed.

Lemma mapM_outlookRow_wrote (rows : selection) (st : store) :
  wrote (3 * List.length rows) st (snd (mapM outlookRow rows st)).
Proof.
  revert st. induction rows as [|el rows IH]; intros st.
  - apply wrote_refl.
  - cbn [mapM]. rewrite !bind_run. cbn [snd ret].
    eapply wrote_weaken; [|eapply wrote_trans; [apply outlookRow_wrote|apply IH]].
    simpl. lia.
Qed.

Ltac wrote_chain_today :=
  lazymatch goal with
  | |- wrote _ ?a ?a => apply wrote_refl
  | |- wrote _ ?a (snd (?m ?s)) =>
      eapply (wrote_trans _ _ a s);
      [wrote_chain_today | solve [apply getSegmentData_wrote | wrote_op]]
  end.

Lemma todayWeather_wrote (st : store) : wrote 19 st (snd (todayWeather st)).
Proof.
  rewrite todayWeather_run. cbv zeta. cbn [snd].
  eapply wrote_weaken; [|wrote_chain_today]. simpl. lia.
Qed.

(** X11: a run of [fetchWeather] leaves the parsed page as it was
    loaded and writes nothing but warnings that name a selector of
    the catalog: at most 19 for today, and three for each row of the
    outlook. *)
Theorem fetchWeather_writes_warnings_only (markup : list node) :
  let final := snd (fetchWeather markup) in
  page final = markup
  /\ Forall (fun line => exists s, In s catalog /\ line = warning s) (log final)
  /\ List.length (log final)
     <= 19 + 3 * (List.length (select (load markup) SELECTORS.followingDays None) - 1).
Proof.
  cbv zeta. rewrite fetchWeather_run. cbn [snd]. rewrite nextDays_run.
  pose proof (todayWeather_wrote (load markup)) as H1.
  pose proof (mapM_outlookRow_wrote
                (slice_from 1 (select (snd (todayWeather (load markup)))
                                      SELECTORS.followingDays None))
                (snd (todayWeather (load markup)))) as H2.
  rewrite (select_page_only _ (load markup) SELECTORS.followingDays None
             (proj1 H1) I) in H2 |- *.
  destruct (wrote_trans _ _ _ _ _ H1 H2) as (Hp & lines & Hl & Hn & Hw).
  split; [exact Hp|]. rewrite Hl. cbn [log load app]. split.
  - apply Forall_forall. intros line Hin. rewrite Forall_forall in Hw.
    apply Hw, in_map_iff in Hin as (s & <- & Hs). now exists s.
  - unfold slice_from in Hn. rewrite length_skipn in Hn. exact Hn.
Qed.

(** ** More on texts and numbers *)

Lemma remove_first_eq (p s : jsstring) :
  remove_first p s
  = if starts_with p s then skipn (List.length p) s
    else match s with
         | [] => []
         | c :: r => c :: remove_first p r
         end.
Proof. destruct s; reflexivity. Qed.

Lemma starts_with_app (p t : jsstring) : starts_with p (p ++ t) = true.
Proof.
  induction p as [|c p IH]; [reflexivity|]. simpl. now rewrite N.eqb_refl, IH.
Qed.

Lemma remove_first_prefix (p t : jsstring) : remove_first p (p ++ t) = t.
Proof.
  rewrite remove_first_eq, starts_with_app.
  rewrite skipn_app, skipn_all, Nat.sub_diag. reflexivity.
Qed.

Lemma remove_first_none (p s : jsstring) :
  contains p s = false -> remove_first p s = s.
Proof.
  induction s as [|c s IH]; intros H; rewrite remove_first_eq; simpl in H;
    apply orb_false_iff in H as [Hs Hr]; rewrite Hs; [reflexivity|].
  now rewrite IH.
Qed.

Lemma remove_degree_after (pre rest : jsstring) :
  forallb (fun x => negb (176 =? x)%N) pre = true ->
  remove_first degree (pre ++ degree ++ rest) = pre ++ rest.
Proof.
  induction pre as [|c pre IH]; intros H.
  - apply (remove_first_prefix degree rest).
  - simpl in H. apply andb_true_iff in H as [Hc Hpre]. apply negb_true_iff in Hc.
    rewrite remove_first_eq. cbn [app starts_with degree]. rewrite Hc. cbn [andb].
    f_equal. now apply IH.
Qed.

Lemma digits_not_degree (ds : jsstring) :
  forallb is_digit ds = true -> forallb (fun x => negb (176 =? x)%N) ds = true.
Proof.
  induction ds as [|c ds IH]; [reflexivity|]. simpl. intros H.
  apply andb_true_iff in H as [Hc Hds]. destruct (digit_facts c Hc) as (-> & _).
  now rewrite IH.
Qed.

Lemma digits_prefix_app (ds rest : jsstring) :
  forallb is_digit ds = true -> digits_prefix rest = [] ->
  digits_prefix (ds ++ rest) = ds.
Proof.
  intros Hds Hrest. induction ds as [|c ds IH]; [exact Hrest|].
  simpl in Hds. apply andb_true_iff in Hds as [Hc Hds]. simpl. rewrite Hc.
  now rewrite IH.
Qed.

Lemma trimStart_app_space (ws s : jsstring) :
  all_space ws = true -> trimStart (ws ++ s) = trimStart s.
Proof.
  induction ws as [|c ws IH]; [reflexivity|]. simpl. intros H.
  apply andb_true_iff in H as [Hc Hws]. rewrite Hc. now apply IH.
Qed.

Lemma trimStart_id (s : jsstring) : starts_clean s = true -> trimStart s = s.
Proof.
  destruct s as [|c s]; [reflexivity|]. simpl. intros H.
  apply negb_true_iff in H. now rewrite H.
Qed.

Lemma trim_id (s : jsstring) :
  starts_clean s = true -> starts_clean (rev s) = true -> trim s = s.
Proof.
  intros H1 H2. unfold trim, trimEnd.
  now rewrite (trimStart_id s H1), (trimStart_id _ H2), rev_involutive.
Qed.

Lemma parseInt10_read (ws ds rest : jsstring) (sign : jsstring) :
  all_space ws = true -> ds <> [] -> forallb is_digit ds = true ->
  digits_prefix rest = [] ->
  parseInt10 (ws ++ str "-" ++ ds ++ rest) = number_of true (digits_value ds)
  /\ parseInt10 (ws ++ str "+" ++ ds ++ rest) = number_of false (digits_value ds)
  /\ parseInt10 (ws ++ ds ++ rest) = number_of false (digits_value ds).
Proof.
  intros Hws Hne Hds Hrest.
  pose proof (digits_prefix_app ds rest Hds Hrest) as Hp.
  destruct ds as [|c ds]; [congruence|].
  pose proof Hds as Hall. simpl in Hds. apply andb_true_iff in Hds as [Hc _].
  destruct (digit_facts c Hc) as (_ & Hsp & Hm & Hpl).
  assert (Hminus : trimStart (str "-" ++ (c :: ds) ++ rest) = 45%N :: (c :: ds) ++ rest)
    by reflexivity.
  assert (Hplus : trimStart (str "+" ++ (c :: ds) ++ rest) = 43%N :: (c :: ds) ++ rest)
    by reflexivity.
  unfold parseInt10.
  repeat split; rewrite (trimStart_app_space ws) by assumption.
  - rewrite Hminus. cbv beta iota zeta. change (45 =? 45)%N with true.
    cbv beta iota zeta. rewrite Hp. reflexivity.
  - rewrite Hplus. cbv beta iota zeta.
    change (43 =? 45)%N with false. change (43 =? 43)%N with true.
    cbv beta iota zeta. rewrite Hp. reflexivity.
  - cbn [app trimStart]. rewrite Hsp. cbv beta iota zeta. rewrite Hm, Hpl.
    cbv beta iota zeta. cbn [app] in Hp. rewrite Hp. reflexivity.
Qed.

(** X12: a reading keeps its sign: white space before it, and whatever
    follows the glyph unless it starts with a digit, are ignored, and
    the Number is the one nearest to the integer the digits write,
    negated after a minus sign.  Below 2^53 it is that integer; zero
    after a minus sign is negative zero; and a minus sign never gives
    a positive integer. *)
Theorem normalizeTemperature_signed (ws ds rest : jsstring) :
  all_space ws = true -> ds <> [] -> forallb is_digit ds = true ->
  digits_prefix rest = [] ->
  normalizeTemperature (ws ++ str "-" ++ ds ++ degree ++ rest)
  = Some (number_of true (digits_value ds))
  /\ normalizeTemperature (ws ++ str "+" ++ ds ++ degree ++ rest)
     = Some (number_of false (digits_value ds))
  /\ normalizeTemperature (ws ++ ds ++ degree ++ rest)
     = Some (number_of false (digits_value ds))
  /\ ((0 < digits_value ds < 2 ^ 53)%Z ->
      number_of true (digits_value ds) = Int (- digits_value ds)
      /\ number_of false (digits_value ds) = Int (digits_value ds))
  /\ (digits_value ds = 0%Z ->
      number_of true (digits_value ds) = NegZero
      /\ number_of false (digits_value ds) = Int 0)
  /\ (forall v, number_of true (digits_value ds) = Int v -> (v < 0)%Z).
Proof.
  intros Hws Hne Hds Hrest.
  destruct (parseInt10_read ws ds rest [] Hws Hne Hds Hrest) as (Hm & Hp & Hu).
  pose proof (space_not_degree ws Hws) as Hw.
  pose proof (digits_not_degree ds Hds) as Hd.
  assert (Hrm : forall sign, forallb (fun x => negb (176 =? x)%N) sign = true ->
            remove_first degree (ws ++ sign ++ ds ++ degree ++ rest)
            = ws ++ sign ++ ds ++ rest).
  { intros sign Hs.
    replace (ws ++ sign ++ ds ++ degree ++ rest)
      with ((ws ++ sign ++ ds) ++ degree ++ rest) by (now rewrite <- !app_assoc).
    rewrite remove_degree_after; [now rewrite <- !app_assoc|].
    rewrite !forallb_app, Hw, Hs, Hd. reflexivity. }
  split; [|split; [|split; [|split; [|split]]]].
  - rewrite normalizeTemperature_value
      by (intros E; apply app_eq_nil in E as [_ E]; discriminate E).
    now rewrite (Hrm (str "-") eq_refl), Hm.
  - rewrite normalizeTemperature_value
      by (intros E; apply app_eq_nil in E as [_ E]; discriminate E).
    now rewrite (Hrm (str "+") eq_refl), Hp.
  - rewrite normalizeTemperature_value
      by (intros E; apply app_eq_nil in E as [_ E]; apply app_eq_nil in E as [E _];
          contradiction).
    pose proof (Hrm [] eq_refl) as H0. cbn [app] in H0. now rewrite H0, Hu.
  - intros Hrange. split; [apply (number_of_exact true)|apply (number_of_exact false)];
      exact Hrange.
  - intros ->. split; reflexivity.
  - intros v. apply number_of_minus. now apply digits_value_nonneg.
Qed.

Lemma normalizeTemperature_signed_witness :
  all_space (str " ") = true /\ str "12" <> [] /\ forallb is_digit (str "12") = true
  /\ digits_prefix (str "F") = []
  /\ normalizeTemperature (str " " ++ str "-" ++ str "12" ++ degree ++ str "F")
     = Some (Int (-12)).
Proof.
  assert (H2 : str "12" <> []) by discriminate.
  destruct (normalizeTemperature_signed (str " ") (str "12") (str "F")
              eq_refl H2 eq_refl eq_refl) as (H & _ & _ & Hx & _).
  split; [reflexivity|]. split; [exact H2|]. split; [reflexivity|].
  split; [reflexivity|]. rewrite H.
  destruct Hx as [-> _]; [vm_compute; split; reflexivity|reflexivity].
Defined.

Lemma starts_with_split (p s : jsstring) :
  starts_with p s = true -> exists r, s = p ++ r.
Proof.
  revert s. induction p as [|a p IH]; intros s H; [now exists s|].
  destruct s as [|b s]; [discriminate H|]. cbn [starts_with] in H.
  apply andb_true_iff in H as [Hab Hr]. apply N.eqb_eq in Hab. subst b.
  destruct (IH s Hr) as [r ->]. now exists r.
Qed.

Lemma remove_first_nil (p s : jsstring) :
  remove_first p s = [] -> s = [] \/ s = p.
Proof.
  rewrite remove_first_eq. destruct (starts_with p s) eqn:E.
  - destruct (starts_with_split p s E) as [r ->].
    rewrite skipn_app, skipn_all, Nat.sub_diag. cbn [skipn app].
    intros ->. right. apply app_nil_r.
  - destruct s; [now left|discriminate].
Qed.

Lemma currentTime_run (markup : list node) :
  DayWeather.currentTime (today_of markup)
  = as_of (fst (getText SELECTORS.time None (load markup))).
Proof. rewrite (today_of_alone markup). reflexivity. Qed.

(** X13: [currentTime] is [null] exactly when the timestamp is missing
    or its text is blank.  Otherwise it is the trimmed text of the
    timestamp without its first [As of ]: the rest of a text that
    starts with these words, and the text as it is when it does not
    hold them.  As the text is trimmed before the words are looked
    for, a timestamp that holds [As of ] and nothing else gives
    [As of]; [currentTime] is never the empty string. *)
Theorem currentTime_strips_prefix (markup : list node) :
  let st := load markup in
  let found := select st SELECTORS.time None in
  let text := trim (text_of st found) in
  let currentTime := DayWeather.currentTime (today_of markup) in
  (currentTime = None <-> found = [] \/ all_space (text_of st found) = true)
  /\ (found <> [] -> currentTime = or_null (remove_first (str "As of ") text))
  /\ (forall rest, found <> [] -> text = str "As of " ++ rest -> currentTime = Some rest)
  /\ (found <> [] -> contains (str "As of ") text = false -> currentTime = or_null text)
  /\ (found <> [] -> text_of st found = str "As of " -> currentTime = Some (str "As of"))
  /\ currentTime <> Some [].
Proof.
  cbv zeta. rewrite currentTime_run.
  destruct (select (load markup) SELECTORS.time None) as [|h hs] eqn:E.
  - rewrite getText_missing by exact E. cbn [fst as_of].
    split; [split; [intros _; now left|reflexivity]|].
    repeat split; try (intros; congruence).
  - rewrite getText_found by (rewrite E; discriminate). rewrite E. cbn [fst].
    pose proof (trim_edge_clean (text_of (load markup) (h :: hs))) as Hc.
    pose proof (trim_nil (text_of (load markup) (h :: hs))) as Hnil.
    pose proof (trim_all_space (text_of (load markup) (h :: hs))) as Hall.
    set (t := trim (text_of (load markup) (h :: hs))) in *.
    assert (Hgen : as_of (or_null t) = or_null (remove_first (str "As of ") t))
      by (destruct t; reflexivity).
    rewrite Hgen.
    assert (Hrest : forall rest, t = str "As of " ++ rest -> rest <> []).
    { intros rest Ht ->. rewrite Ht in Hc. discriminate Hc. }
    split; [|split; [|split; [|split; [|split]]]].
    + split.
      * intros Hnone. right. apply Hnil.
        destruct (remove_first (str "As of ") t) eqn:R; [|discriminate Hnone].
        apply remove_first_nil in R as [R|R]; [exact R|].
        exfalso. apply (Hrest [] R). reflexivity.
      * intros [Hf|Hsp]; [discriminate Hf|]. now rewrite (Hall Hsp).
    + reflexivity.
    + intros rest _ Ht. rewrite Ht, remove_first_prefix.
      specialize (Hrest rest Ht). destruct rest; [congruence|reflexivity].
    + intros _ Hno. now rewrite remove_first_none.
    + intros _ Ht. unfold t. rewrite Ht. reflexivity.
    + unfold or_null. destruct (remove_first (str "As of ") t); discriminate.
Qed.

Lemma currentTime_strips_prefix_witness :
  let bare := [Sample.el "span" [("class", "CurrentConditions--timestamp--1ybTk")]
                 [Sample.txt "As of "]] in
  DayWeather.currentTime (today_of Sample.markup) = Some (str "2:14 pm EDT")
  /\ DayWeather.currentTime (today_of bare) = Some (str "As of")
  /\ DayWeather.currentTime (today_of Sample.blank) = None.
Proof.
  cbv zeta.
  destruct (currentTime_strips_prefix Sample.markup) as (_ & _ & H & _).
  destruct (currentTime_strips_prefix
              [Sample.el "span" [("class", "CurrentConditions--timestamp--1ybTk")]
                 [Sample.txt "As of "]]) as (_ & _ & _ & _ & B & _).
  destruct (currentTime_strips_prefix Sample.blank) as ([_ N] & _).
  split; [|split].
  - apply H; [vm_compute; discriminate|vm_compute; reflexivity].
  - apply B; [vm_compute; discriminate|vm_compute; reflexivity].
  - apply N. left. vm_compute. reflexivity.
Defined.

Lemma text_of_two (st : store) (h1 h2 : handle) :
  text_of st [h1; h2] = node_text st h1 ++ node_text st h2.
Proof. unfold node_text, text_of. simpl. now rewrite !app_nil_r. Qed.

(** X14: a lookup that finds two leaves reads their texts run
    together: the Number is the one nearest to the integer written by
    the digits of the first leaf followed by those of the second,
    which below 2^53 is that integer; with the leaves [75°] and [58°]
    below its context, [getTemp] gives 7558. *)
Theorem getTemp_joins_leaves (st : store) (selector : selector)
    (context : option selection) (h1 h2 : handle) (d1 d2 : jsstring) :
  select st selector context = [h1; h2] ->
  node_text st h1 = d1 ++ degree -> node_text st h2 = d2 ++ degree ->
  d1 <> [] -> forallb is_digit d1 = true -> forallb is_digit d2 = true ->
  getTemp selector context st
  = (Some (number_of false (digits_value (d1 ++ d2))), st)
  /\ ((digits_value (d1 ++ d2) < 2 ^ 53)%Z ->
      getTemp selector context st = (Some (Int (digits_value (d1 ++ d2))), st)).
Proof.
  intros Hsel H1 H2 Hne Hd1 Hd2.
  assert (Hall : forallb is_digit (d1 ++ d2) = true)
    by (now rewrite forallb_app, Hd1, Hd2).
  assert (Hval : getTemp selector context st
                 = (Some (number_of false (digits_value (d1 ++ d2))), st)).
  { rewrite getTemp_found by (rewrite Hsel; discriminate).
    rewrite Hsel, text_of_two, H1, H2. f_equal. f_equal.
    rewrite trim_id.
    - rewrite normalizeTemperature_value
        by (destruct d1; [congruence|discriminate]).
      rewrite <- app_assoc.
      rewrite remove_degree_after by (now apply digits_not_degree).
      rewrite app_assoc. f_equal. apply parseInt10_read with (ws := []) (sign := []).
      + reflexivity.
      + destruct d1; [congruence|discriminate].
      + exact Hall.
      + reflexivity.
    - destruct d1 as [|c d1]; [congruence|]. simpl in Hd1.
      apply andb_true_iff in Hd1 as [Hc _]. destruct (digit_facts c Hc) as (_ & Hs & _).
      simpl. now rewrite Hs.
    - rewrite app_assoc, rev_app_distr. reflexivity. }
  split; [exact Hval|].
  intros Hlt. rewrite Hval, number_of_small; [reflexivity|].
  pose proof (digits_value_nonneg (d1 ++ d2) Hall). lia.
Qed.

Lemma getTemp_joins_leaves_witness :
  let st := load Sample.markup in
  let card := select st SELECTORS.todayDetails None in
  select st SELECTORS.temperature (Some card)
  = [mkHandle Page [0; 1; 1; 0; 0]; mkHandle Page [0; 1; 1; 0; 2]]
  /\ getTemp SELECTORS.temperature (Some card) st = (Some (Int 7558), st)
  /\ DayWeather.currentFeltTemp (today_of Sample.markup) = Some (Int 7558).
Proof.
  cbv zeta.
  assert (Hsel : select (load Sample.markup) SELECTORS.temperature
                   (Some (select (load Sample.markup) SELECTORS.todayDetails None))
                 = [mkHandle Page [0; 1; 1; 0; 0]; mkHandle Page [0; 1; 1; 0; 2]])
    by (vm_compute; reflexivity).
  assert (H1 : node_text (load Sample.markup) (mkHandle Page [0; 1; 1; 0; 0])
               = str "75" ++ degree) by (vm_compute; reflexivity).
  assert (H2 : node_text (load Sample.markup) (mkHandle Page [0; 1; 1; 0; 2])
               = str "58" ++ degree) by (vm_compute; reflexivity).
  assert (Hne : str "75" <> []) by discriminate.
  destruct (getTemp_joins_leaves (load Sample.markup) SELECTORS.temperature
              (Some (select (load Sample.markup) SELECTORS.todayDetails None))
              _ _ (str "75") (str "58") Hsel H1 H2 Hne eq_refl eq_refl) as [_ H].
  specialize (H eq_refl).
  split; [exact Hsel|]. split; [exact H|].
  rewrite (today_of_alone Sample.markup).
  cbn [DayWeather.currentFeltTemp]. unfold alone. now rewrite H.
Defined.

(** ** The two variants of the extraction *)

Lemma cli_getSegmentData_run (n : nat) (st : store) :
  let segmentEl := select st (SELECTORS.segment_row SELECTORS.today n) None in
  let r1 := Cli.getTemp SELECTORS.temperature (Some segmentEl) st in
  let r2 := Cli.getText SELECTORS.condition (Some segmentEl) (snd r1) in
  let r3 := Cli.getPercentage SELECTORS.chanceOfRain (Some segmentEl) (snd r2) in
  Cli.getSegmentData n st = (Cli.Quarter.mk (fst r1) (fst r2) (fst r3), snd r3).
Proof. unfold Cli.getSegmentData. run. reflexivity. Qed.

Lemma segment_variants (n : nat) (st : store) :
  snd (Cli.getSegmentData n st) = snd (getSegmentData n st)
  /\ Cli.Quarter.temp (fst (Cli.getSegmentData n st))
     = Segment.temp (fst (getSegmentData n st))
  /\ Cli.Quarter.rain (fst (Cli.getSegmentData n st))
     = Segment.rain (fst (getSegmentData n st))
  /\ Segment.condition (fst (getSegmentData n st))
     = null_if_blank (Cli.Quarter.condition (fst (Cli.getSegmentData n st))).
Proof.
  rewrite cli_getSegmentData_run, getSegmentData_run. cbv zeta.
  set (segmentEl := select st (SELECTORS.segment_row SELECTORS.today n) None).
  rewrite (getTemp_variants st SELECTORS.temperature (Some segmentEl)).
  set (s1 := snd (getTemp SELECTORS.temperature (Some segmentEl) st)).
  destruct (getText_variants s1 SELECTORS.condition (Some segmentEl))
    as (Hs & Hv).
  rewrite Hs. unfold Cli.getPercentage.
  cbn [fst snd Cli.Quarter.temp Cli.Quarter.rain Cli.Quarter.condition
       Segment.temp Segment.rain Segment.condition].
  repeat split. exact Hv.
Qed.

Lemma cli_todayWeather_run (st : store) :
  let m := Cli.getSegmentData 1 st in
  let a := Cli.getSegmentData 2 (snd m) in
  let e := Cli.getSegmentData 3 (snd a) in
  let o := Cli.getSegmentData 4 (snd e) in
  Cli.todayWeather st
  = (Cli.DayWeather.mk
       (Cli.Quarter.rain (fst m)) (Cli.Quarter.condition (fst m)) (Cli.Quarter.temp (fst m))
       (Cli.Quarter.rain (fst a)) (Cli.Quarter.condition (fst a)) (Cli.Quarter.temp (fst a))
       (Cli.Quarter.rain (fst e)) (Cli.Quarter.condition (fst e)) (Cli.Quarter.temp (fst e))
       (Cli.Quarter.rain (fst o)) (Cli.Quarter.condition (fst o)) (Cli.Quarter.temp (fst o)),
     snd o).
Proof. unfold Cli.todayWeather. run. reflexivity. Qed.

Lemma cli_getSegmentData_page (n : nat) (st : store) :
  page (snd (Cli.getSegmentData n st)) = page st.
Proof.
  destruct (segment_variants n st) as (-> & _). apply steady_getSegmentData.
Qed.

(** The segment of the older variant, read at any store of the run,
    against the segment of the newer read alone. *)
Lemma segment_variants_alone (n : nat) (markup : list node) (st : store) :
  page st = markup ->
  Cli.Quarter.temp (fst (Cli.getSegmentData n st))
  = Segment.temp (alone (getSegmentData n) markup)
  /\ Cli.Quarter.rain (fst (Cli.getSegmentData n st))
     = Segment.rain (alone (getSegmentData n) markup)
  /\ Segment.condition (alone (getSegmentData n) markup)
     = null_if_blank (Cli.Quarter.condition (fst (Cli.getSegmentData n st))).
Proof.
  intros Hp. destruct (segment_variants n st) as (_ & Ht & Hr & Hc).
  unfold alone. rewrite <- (getSegmentData_alone n st (load markup)) by exact Hp.
  repeat split; assumption.
Qed.

(** X15: on every page the breakdown of the command line variant and
    the one of [fetchWeather] agree: the twelve temperature and rain
    fields are equal, and a condition of the newer is the condition
    of the older with the empty string turned into [null]. *)
Theorem today_of_both_variants (markup : list node) :
  let old := fst (fst (Cli.extract markup)) in
  let new := today_of markup in
  (Cli.DayWeather.morningTemperature old = DayWeather.morningTemperature new
   /\ Cli.DayWeather.afternoonTemperature old = DayWeather.afternoonTemperature new
   /\ Cli.DayWeather.eveningTemperature old = DayWeather.eveningTemperature new
   /\ Cli.DayWeather.overnightTemperature old = DayWeather.overnightTemperature new)
  /\ (Cli.DayWeather.morningChanceOfRain old = DayWeather.morningChanceOfRain new
      /\ Cli.DayWeather.afternoonChanceOfRain old = DayWeather.afternoonChanceOfRain new
      /\ Cli.DayWeather.eveningChanceOfRain old = DayWeather.eveningChanceOfRain new
      /\ Cli.DayWeather.overnightChanceOfRain old = DayWeather.overnightChanceOfRain new)
  /\ (DayWeather.morningCondition new
      = null_if_blank (Cli.DayWeather.morningCondition old)
      /\ DayWeather.afternoonCondition new
         = null_if_blank (Cli.DayWeather.afternoonCondition old)
      /\ DayWeather.eveningCondition new
         = null_if_blank (Cli.DayWeather.eveningCondition old)
      /\ DayWeather.overnightCondition new
         = null_if_blank (Cli.DayWeather.overnightCondition old)).
Proof.
  cbv zeta. rewrite (today_of_alone markup). cbv zeta.
  unfold Cli.extract. rewrite !bind_run. cbn [fst ret].
  rewrite cli_todayWeather_run. cbv zeta.
  set (s1 := snd (Cli.getSegmentData 1 (load markup))).
  set (s2 := snd (Cli.getSegmentData 2 s1)).
  set (s3 := snd (Cli.getSegmentData 3 s2)).
  assert (H1 : page s1 = markup) by apply cli_getSegmentData_page.
  assert (H2 : page s2 = markup)
    by (unfold s2; now rewrite cli_getSegmentData_page).
  assert (H3 : page s3 = markup)
    by (unfold s3; now rewrite cli_getSegmentData_page).
  destruct (segment_variants_alone 1 markup (load markup) eq_refl) as (T1 & R1 & C1).
  destruct (segment_variants_alone 2 markup s1 H1) as (T2 & R2 & C2).
  destruct (segment_variants_alone 3 markup s2 H2) as (T3 & R3 & C3).
  destruct (segment_variants_alone 4 markup s3 H3) as (T4 & R4 & C4).
  cbn [fst]. repeat split; assumption.
Qed.








(** ** Rows *)

Lemma path_ltb_irrefl (p : path) : path_ltb p p = false.
Proof.
  induction p as [|i p IH]; [reflexivity|]. simpl.
  now rewrite Nat.ltb_irrefl, Nat.eqb_refl, IH.
Qed.

Lemma sorted_head_apart (h : handle) (hs : selection) :
  StronglySorted before (h :: hs) -> ~ In h hs.
Proof.
  intros H Hin. inversion H as [|? ? _ Hall]; subst.
  rewrite Forall_forall in Hall. destruct (Hall h Hin) as [_ Hlt].
  rewrite path_ltb_irrefl in Hlt. discriminate.
Qed.

Lemma sorted_NoDup (hs : selection) : StronglySorted before hs -> NoDup hs.
Proof.
  induction hs as [|h hs IH]; intros H; constructor.
  - now apply sorted_head_apart.
  - apply IH. now inversion H.
Qed.

(** X17: the rows of the daily table are read in document order, each
    once; the outlook is built from all of them but the first, which
    never appears in it. *)
Theorem outlook_skips_first_row (markup : list node) :
  let table := select (load markup) SELECTORS.followingDays None in
  next_of markup = List.map (fun row => alone (outlookRow row) markup) (skipn 1 table)
  /\ StronglySorted before table
  /\ NoDup table
  /\ match table with
     | [] => next_of markup = []
     | first_row :: _ => ~ In first_row (skipn 1 table)
     end.
Proof.
  cbv zeta. pose proof (next_of_alone markup) as Hnext.
  cbv zeta in Hnext. unfold slice_from in Hnext.
  pose proof (select_sorted (load markup) SELECTORS.followingDays None I) as Hs.
  split; [exact Hnext|]. split; [exact Hs|]. split; [now apply sorted_NoDup|].
  destruct (select (load markup) SELECTORS.followingDays None) as [|r rows] eqn:E.
  - rewrite Hnext. reflexivity.
  - cbn [skipn]. now apply sorted_head_apart.
Qed.

(** X18: for a response that lists places, a run on a terminal that
    is not interactive goes on with the first place listed, and an
    interactive run with one of the first three. *)
Theorem first_place_when_not_interactive
    (prompt : list Choice.t -> Location) (k : jsstring) (r : Row) (rows : list Row)
    (isTTY : bool) :
  answers_from_choices prompt ->
  exists ls,
    fetchLocations (response_of k (r :: rows)) = Ok ls
    /\ weatherTUI_select prompt false ls = Some (place_of r)
    /\ exists chosen,
         weatherTUI_select prompt isTTY ls = Some chosen
         /\ In chosen (List.map place_of (firstn 3 (r :: rows))).
Proof.
  intros Hprompt.
  exists (List.map place_of (r :: rows)). split; [apply fetchLocations_rows|].
  split; [apply weatherTUI_select_first; now left|].
  destruct (weatherTUI_select prompt isTTY (List.map place_of (r :: rows)))
    as [chosen|] eqn:Ec.
  - exists chosen. split; [reflexivity|]. rewrite <- firstn_map.
    now apply (weatherTUI_select_in prompt isTTY).
  - apply weatherTUI_select_none in Ec. discriminate Ec.
Qed.

Lemma first_place_when_not_interactive_witness :
  let gary := mkRow (str "a1") (str "Gary") (str "Indiana") (str "United States") in
  answers_from_choices takes_last
  /\ exists ls,
       fetchLocations (response_of (str "k") [gary; gary]) = Ok ls
       /\ weatherTUI_select takes_last false ls = Some (place_of gary).
Proof.
  cbv zeta. split; [exact takes_last_answers|].
  destruct (first_place_when_not_interactive takes_last (str "k")
              (mkRow (str "a1") (str "Gary") (str "Indiana") (str "United States"))
              [mkRow (str "a1") (str "Gary") (str "Indiana") (str "United States")]
              false takes_last_answers) as (ls & E & F & _).
  exists ls. split; assumption.
Defined.

(** ** The rows of the segments *)

Lemma find_apart (s s' : selector) :
  (forall e ups, matches s e ups = true -> matches s' e ups = true -> False) ->
  forall n ups pos p,
    In p (find_node s ups pos n) -> In p (find_node s' ups pos n) -> False.
Proof.
  intros Hss n. induction n as [t a cs IH| |] using node_ind'; intros ups pos p H H';
    try contradiction.
  rewrite find_node_elem in H, H'.
  apply in_app_iff in H as [H|H]; apply in_app_iff in H' as [H'|H'].
  - destruct (matches s (mkInfo t a pos) ups) eqn:E; [|contradiction].
    destruct (matches s' (mkInfo t a pos) ups) eqn:E'; [|contradiction].
    exact (Hss _ _ E E').
  - destruct (matches s (mkInfo t a pos) ups); [|contradiction].
    destruct H as [<-|[]]. apply find_forest_heads in H' as (j & q & Hq & _).
    discriminate Hq.
  - destruct (matches s' (mkInfo t a pos) ups); [|contradiction].
    destruct H' as [<-|[]]. apply find_forest_heads in H as (j & q & Hq & _).
    discriminate Hq.
  - revert H H'. generalize (mkInfo t a pos :: ups). generalize O at 1 3. generalize O.
    induction IH as [|c cs Hc _ IHcs]; intros b i u H H'; [contradiction|].
    cbn [find_forest] in H, H'.
    apply in_app_iff in H as [H|H]; apply in_app_iff in H' as [H'|H'].
    + apply in_map_iff in H as (q & <- & Hq). apply in_map_iff in H' as (q' & Eq & Hq').
      inversion Eq; subst. exact (Hc _ _ _ Hq Hq').
    + apply in_map_iff in H as (q & <- & _).
      apply find_forest_heads in H' as (j & q' & Eq & Hle). inversion Eq. lia.
    + apply in_map_iff in H' as (q & <- & _).
      apply find_forest_heads in H as (j & q' & Eq & Hle). inversion Eq. lia.
    + exact (IHcs _ _ _ H H').
Qed.

Lemma find_forest_apart (s s' : selector) :
  (forall e ups, matches s e ups = true -> matches s' e ups = true -> False) ->
  forall l ups i b p,
    In p (find_forest s ups i b l) -> In p (find_forest s' ups i b l) -> False.
Proof.
  intros Hss l. induction l as [|c l IH]; intros ups i b p H H'; [contradiction|].
  cbn [find_forest] in H, H'.
  apply in_app_iff in H as [H|H]; apply in_app_iff in H' as [H'|H'].
  - apply in_map_iff in H as (q & <- & Hq). apply in_map_iff in H' as (q' & Eq & Hq').
    inversion Eq; subst. exact (find_apart s s' Hss _ _ _ _ Hq Hq').
  - apply in_map_iff in H as (q & <- & _).
    apply find_forest_heads in H' as (j & q' & Eq & Hle). inversion Eq. lia.
  - apply in_map_iff in H' as (q & <- & _).
    apply find_forest_heads in H as (j & q' & Eq & Hle). inversion Eq. lia.
  - exact (IH _ _ _ _ H H').
Qed.

(** X19: the [li] elements matched by the row selectors of two
    different segment numbers are disjoint: no element is the row of
    two segments.  (Where lists are nested, the row of one segment
    may still lie inside the row of another.) *)
Theorem segment_rows_apart (st : store) (n m : nat) (h : handle) :
  n <> m ->
  In h (select st (SELECTORS.segment_row SELECTORS.today n) None) ->
  ~ In h (select st (SELECTORS.segment_row SELECTORS.today m) None).
Proof.
  intros Hnm H H'. unfold select in H, H'.
  apply in_map_iff in H as (p & <- & Hp). apply in_map_iff in H' as (p' & Eq & Hp').
  inversion Eq; subst p'.
  refine (find_forest_apart _ _ _ _ _ _ _ _ Hp Hp').
  intros e ups E E'. unfold SELECTORS.segment_row in E, E'. cbn [matches] in E, E'.
  apply andb_true_iff in E as [E _]. apply andb_true_iff in E' as [E' _].
  cbn [matches_compound forallb matches_simple] in E, E'.
  apply andb_true_iff in E as [_ E]. apply andb_true_iff in E' as [_ E'].
  apply andb_true_iff in E as [E _]. apply andb_true_iff in E' as [E' _].
  apply Nat.eqb_eq in E, E'. congruence.
Qed.

Lemma segment_rows_apart_witness :
  let st := load Sample.markup in
  let h := mkHandle Page [0; 1; 2; 0; 0; 1] in
  2 <> 3
  /\ In h (select st (SELECTORS.segment_row SELECTORS.today 2) None)
  /\ ~ In h (select st (SELECTORS.segment_row SELECTORS.today 3) None).
Proof.
  cbv zeta.
  assert (Hneq : 2 <> 3) by discriminate.
  assert (Hin : In (mkHandle Page [0; 1; 2; 0; 0; 1])
                   (select (load Sample.markup)
                           (SELECTORS.segment_row SELECTORS.today 2) None))
    by (vm_compute; left; reflexivity).
  split; [exact Hneq|]. split; [exact Hin|].
  exact (segment_rows_apart (load Sample.markup) 2 3 _ Hneq Hin).
Defined.
